(** * marker2nii: mapping region-wise markers onto a volumetric atlas

    A shallow embedding of [marker2nii/marker2nii.py] and the verification
    of its specification.

    Modelling decisions, in the order of the file:
    - Python exceptions are an error type [exn]; fallible code returns
      [result], stateful code (the file system, the console) threads a
      [World] through a small state-and-error monad.
    - numpy's float64 is [spec_float] with precision 53 and maximal
      exponent 1024, the IEEE 754 model of the Standard Library.
    - An ndarray is its shape together with its elements in row-major
      order; a voxel is a position in that order.
    - [os.path.split], [os.path.splitext] and [pathlib.Path] follow
      CPython's posixpath, genericpath and pathlib.
    - The readers of input files ([np.loadtxt], [pd.read_csv],
      [nilearn.image.load_img]) are parameters of the driver.

    The model comes first, then the notions of the specification and the
    scenarios used as examples, then the lemmas, then the properties of
    the specification, numbered as in its list of claims. *)

From Stdlib Require Import ZArith List String Ascii Bool Lia SpecFloat.
From stdpp Require Import base option list sorting gmap strings pretty.

Local Open Scope Z_scope.

(* ===================================================================== *)
(** * Exceptions and results *)
(* ===================================================================== *)

(** The error numbers of the system calls of a run. Python raises the
    subclass of [OSError] that belongs to the number: [FileNotFoundError]
    for [ENOENT], [FileExistsError] for [EEXIST], [NotADirectoryError] for
    [ENOTDIR] and [IsADirectoryError] for [EISDIR]. *)
Inductive errno : Type := ENOENT | EEXIST | ENOTDIR | EISDIR.

(** [FileNotFoundError msg] is the error [prepare_output] raises itself,
    with its message; [OSError e] is an error of a system call, whose
    message is left out. *)
Inductive exn : Type :=
  | AssertionError (msg : string)
  | FileNotFoundError (msg : string)
  | OSError (e : errno)
  | IndexError
  | KeyError
  | ValueError
  | ExternalError (msg : string).

Inductive result (A : Type) : Type :=
  | Ok (a : A)
  | Raise (e : exn).
Arguments Ok {A} a.
Arguments Raise {A} e.

#[global] Instance result_ret : MRet result := λ A, Ok.
#[global] Instance result_bind : MBind result := λ A B k r,
  match r with
  | Ok a => k a
  | Raise e => Raise e
  end.

#[global] Instance result_fmap : FMap result := λ A B f r,
  match r with
  | Ok a => Ok (f a)
  | Raise e => Raise e
  end.

(** [assert cond, msg] *)
Definition py_assert (cond : bool) (msg : string) : result unit :=
  if cond then Ok tt else Raise (AssertionError msg).

(* ===================================================================== *)
(** * float64 *)
(* ===================================================================== *)

Module F64.
Definition prec : Z := 53.
Definition emax : Z := 1024.

Definition t : Type := spec_float.

Definition nan : t := S754_nan.
Definition zero : t := S754_zero false.
Definition of_Z (z : Z) : t := binary_normalize prec emax z 0 false.

Definition isnan (x : t) : bool :=
  match x with
  | S754_nan => true
  | _ => false
  end.

Definition is_finite (x : t) : bool :=
  match x with
  | S754_zero _ | S754_finite _ _ _ => true
  | _ => false
  end.

Definition sub (x y : t) : t := SFsub prec emax x y.
Definition div (x y : t) : t := SFdiv prec emax x y.
Definition ltb (x y : t) : bool := SFltb x y.
Definition leb (x y : t) : bool := SFleb x y.
Definition eqb (x y : t) : bool := SFeqb x y.
Definition valid (x : t) : bool := valid_binary prec emax x.
End F64.

(** float32, the type of the display range of a NIfTI-1 header. *)
Module F32.
Definition prec : Z := 24.
Definition emax : Z := 128.

(** [np.float32(x)]: a float64 rounded to the nearest float32, ties to
    even; what is too large becomes an infinity. *)
Definition of_f64 (x : F64.t) : spec_float :=
  match x with
  | S754_finite s m e => binary_round prec emax s m e
  | _ => x
  end.

(** [np.float64(x)]: a float32 as the float64 of the same value. *)
Definition to_f64 (x : spec_float) : F64.t :=
  match x with
  | S754_finite s m e => binary_round F64.prec F64.emax s m e
  | _ => x
  end.

(** A float64 stored in a float32 field and read again. *)
Definition round (x : F64.t) : F64.t := to_f64 (of_f64 x).
End F32.

(* ===================================================================== *)
(** * numpy *)
(* ===================================================================== *)

Record ndarray (A : Type) : Type := mk_ndarray {
  shape : list nat;
  flat : list A
}.
Arguments mk_ndarray {A} shape flat.
Arguments shape {A} _.
Arguments flat {A} _.

Definition numel (sh : list nat) : nat := foldr Nat.mul 1%nat sh.

(** Every array numpy builds has as many elements as its shape says. *)
Definition wf_ndarray {A} (a : ndarray A) : Prop :=
  length (flat a) = numel (shape a).

(** [np.zeros(shape)] *)
Definition np_zeros (sh : list nat) : ndarray F64.t :=
  mk_ndarray sh (replicate (numel sh) F64.zero).

(** [np.unique(a)]: the sorted distinct elements of [a]. *)
Definition np_unique (a : ndarray Z) : list Z :=
  merge_sort Z.le (remove_dups (flat a)).

(** [a == x], element by element. *)
Definition np_equal (a : ndarray Z) (x : Z) : ndarray bool :=
  mk_ndarray (shape a) ((λ y, y =? x) <$> flat a).

(** [np.isnan(a)], element by element. *)
Definition np_isnan (a : ndarray F64.t) : ndarray bool :=
  mk_ndarray (shape a) (F64.isnan <$> flat a).

(** [a[mask] = value] for a boolean mask of the shape of [a]. *)
Definition setitem_mask {A} (a : ndarray A) (mask : ndarray bool) (value : A)
  : ndarray A :=
  mk_ndarray (shape a)
    (zip_with (λ (m : bool) old, if m then value else old) (flat mask) (flat a)).

(** [v[i]] on a one-dimensional array: a negative index counts from the
    end, an index outside [-n, n) raises [IndexError]. *)
Definition np_getitem {A} (v : list A) (i : Z) : result A :=
  let n := Z.of_nat (length v) in
  if (i <? - n) || (n <=? i) then Raise IndexError
  else
    match v !! Z.to_nat (if i <? 0 then i + n else i) with
    | Some x => Ok x
    | None => Raise IndexError
    end.

(** [v[~np.isnan(v)]] *)
Definition drop_nan (v : list F64.t) : list F64.t :=
  List.filter (λ x, negb (F64.isnan x)) v.

(** [np.minimum(a, b)] and [np.maximum(a, b)] on scalars. *)
Definition np_minimum (a b : F64.t) : F64.t :=
  if F64.isnan a then a else if F64.ltb a b then a else b.
Definition np_maximum (a b : F64.t) : F64.t :=
  if F64.isnan a then a else if F64.ltb b a then a else b.

(** [np.min(v)] and [np.max(v)]: a reduction from the first element; an
    empty array has no identity and raises [ValueError]. *)
Definition np_min (v : list F64.t) : result F64.t :=
  match v with
  | [] => Raise ValueError
  | x :: xs => Ok (foldl np_minimum x xs)
  end.
Definition np_max (v : list F64.t) : result F64.t :=
  match v with
  | [] => Raise ValueError
  | x :: xs => Ok (foldl np_maximum x xs)
  end.

(* ===================================================================== *)
(** * Images *)
(* ===================================================================== *)

(** The display range of a NIfTI-1 header, the two fields the program
    sets. They are float32 fields: a field holds the float32 nearest to
    the number assigned, here as the float64 read from it. *)
Record Header : Type := mk_Header {
  cal_max : F64.t;
  cal_min : F64.t
}.

Definition affine_t : Type := list (list F64.t).

Record Nifti1Image (A : Type) : Type := mk_Nifti1Image {
  dataobj : ndarray A;
  affine : affine_t;
  header : Header
}.
Arguments mk_Nifti1Image {A} dataobj affine header.
Arguments dataobj {A} _.
Arguments affine {A} _.
Arguments header {A} _.

(** A Labeled Volume: integer labels, 0 for the background. *)
Definition LabeledVolume : Type := Nifti1Image Z.
(** A Mapped Volume: one float64 per voxel. *)
Definition MappedVolume : Type := Nifti1Image F64.t.

(** [nilearn.image.new_img_like(ref, data)]: the data with the affine of
    the reference image and a header of its own. *)
Definition new_img_like {A B} (ref : Nifti1Image A) (data : ndarray B)
  : Nifti1Image B :=
  mk_Nifti1Image data (affine ref) (mk_Header F64.zero F64.zero).

(** [img.header["cal_max"] = x] and [img.header["cal_min"] = x] *)
Definition set_cal_max {A} (img : Nifti1Image A) (x : F64.t) : Nifti1Image A :=
  mk_Nifti1Image (dataobj img) (affine img)
    (mk_Header (F32.round x) (cal_min (header img))).
Definition set_cal_min {A} (img : Nifti1Image A) (x : F64.t) : Nifti1Image A :=
  mk_Nifti1Image (dataobj img) (affine img)
    (mk_Header (cal_max (header img)) (F32.round x)).

(* ===================================================================== *)
(** * map_to_atlas *)
(* ===================================================================== *)

Definition roi_mismatch_msg : string :=
  "Length of marker array and n ROI's are inconsistent!".

(** The offset of the masked value below the smallest marker value. *)
Definition mask_offset : F64.t := F64.of_Z 20000.

(** The assertion of [map_to_atlas]: [len(rois) - 1 == len(marker)]. *)
Definition roi_count_ok (marker : list F64.t) (atlas_array : ndarray Z) : bool :=
  Z.of_nat (length (np_unique atlas_array)) - 1 =? Z.of_nat (length marker).

(** The body of the loop over the labels. Labels are integers, so
    [roi = int(roi)] leaves them as they are. *)
Definition map_roi (marker : list F64.t) (atlas_array : ndarray Z)
    (marker_img_array : ndarray F64.t) (roi : Z) : result (ndarray F64.t) :=
  if roi =? 0 then Ok marker_img_array
  else
    value ← np_getitem marker (roi - 1);
    Ok (setitem_mask marker_img_array (np_equal atlas_array roi) value).

(** [for roi in rois: ...] *)
Fixpoint map_rois (marker : list F64.t) (atlas_array : ndarray Z)
    (rois : list Z) (marker_img_array : ndarray F64.t)
  : result (ndarray F64.t) :=
  match rois with
  | [] => Ok marker_img_array
  | roi :: rois' =>
      marker_img_array' ← map_roi marker atlas_array marker_img_array roi;
      map_rois marker atlas_array rois' marker_img_array'
  end.

(** [marker = np.array(marker)] is the list of its numbers, and
    [np.array(atlas.dataobj)] the array of the labels. *)
Definition map_to_atlas (marker : list F64.t) (atlas : LabeledVolume)
  : result MappedVolume :=
  let atlas_array := dataobj atlas in
  let rois := np_unique atlas_array in
  _ ← py_assert (roi_count_ok marker atlas_array) roi_mismatch_msg;
  let marker_img_array := np_zeros (shape atlas_array) in
  let marker_no_na := drop_nan marker in
  marker_min ← np_min marker_no_na;
  marker_max ← np_max marker_no_na;
  marker_img_array ← map_rois marker atlas_array rois marker_img_array;
  let marker_img_array :=
    setitem_mask marker_img_array (np_isnan marker_img_array)
      (F64.sub marker_min mask_offset) in
  let marker_img_array :=
    setitem_mask marker_img_array (np_equal atlas_array 0)
      (F64.sub marker_min mask_offset) in
  let marker_img := new_img_like atlas marker_img_array in
  let marker_img := set_cal_max marker_img marker_max in
  let marker_img := set_cal_min marker_img marker_min in
  Ok marker_img.

(* ===================================================================== *)
(** * Paths *)
(* ===================================================================== *)

Local Open Scope string_scope.

(** [s.rfind(c)]: the position of the last [c] in [s], or -1. *)
Fixpoint rfind_from (c : ascii) (s : string) (i last : Z) : Z :=
  match s with
  | EmptyString => last
  | String a s' => rfind_from c s' (i + 1) (if Ascii.eqb a c then i else last)
  end.
Definition rfind (c : ascii) (s : string) : Z := rfind_from c s 0 (-1).

(** [c in s] *)
Fixpoint has_char (c : ascii) (s : string) : bool :=
  match s with
  | EmptyString => false
  | String a s' => Ascii.eqb a c || has_char c s'
  end.

(** [s[n:]] *)
Fixpoint str_drop (n : nat) (s : string) : string :=
  match n, s with
  | O, _ => s
  | S _, EmptyString => EmptyString
  | S n', String _ s' => str_drop n' s'
  end.

(** [s[:i]] and [s[i:]] for [0 <= i]. *)
Definition slice_to (s : string) (i : Z) : string :=
  substring 0 (Z.to_nat i) s.
Definition slice_from (s : string) (i : Z) : string :=
  substring (Z.to_nat i) (String.length s - Z.to_nat i)%nat s.

(** [s.rstrip(c)] *)
Fixpoint rstrip (c : ascii) (s : string) : string :=
  match s with
  | EmptyString => EmptyString
  | String a s' =>
      let r := rstrip c s' in
      if String.eqb r "" && Ascii.eqb a c then "" else String a r
  end.

(** [c * n] *)
Fixpoint str_repeat (c : ascii) (n : nat) : string :=
  match n with
  | O => EmptyString
  | S n' => String c (str_repeat c n')
  end.

(** [os.path.split(p)] (posixpath): the part up to the last slash and the
    part after it. *)
Definition os_path_split (p : string) : string * string :=
  let i := rfind "/" p + 1 in
  let head := slice_to p i in
  let tail := slice_from p i in
  let head :=
    if negb (String.eqb head "")
       && negb (String.eqb head (str_repeat "/" (String.length head)))
    then rstrip "/" head else head in
  (head, tail).

(** The loop of [genericpath._splitext] that skips the leading dots of the
    file name: [true] when a character other than a dot is found at one of
    the [n] positions from [filenameIndex] on. *)
Fixpoint has_non_dot (p : string) (filenameIndex n : nat) : bool :=
  match n with
  | O => false
  | S n' =>
      match String.get filenameIndex p with
      | Some "."%char => has_non_dot p (S filenameIndex) n'
      | _ => true
      end
  end.

(** [os.path.splitext(p)]: the extension starts at the last dot of the
    last component, leading dots of that component apart. *)
Definition os_path_splitext (p : string) : string * string :=
  let sepIndex := rfind "/" p in
  let dotIndex := rfind "." p in
  if (sepIndex <? dotIndex)%Z
     && has_non_dot p (Z.to_nat (sepIndex + 1)) (Z.to_nat (dotIndex - (sepIndex + 1)))
  then (slice_to p dotIndex, slice_from p dotIndex)
  else (p, "").

(** [s.split(c)] *)
Fixpoint str_split (c : ascii) (s : string) : list string :=
  match s with
  | EmptyString => [EmptyString]
  | String a s' =>
      if Ascii.eqb a c then EmptyString :: str_split c s'
      else
        match str_split c s' with
        | [] => [String a EmptyString]
        | w :: ws => String a w :: ws
        end
  end.

(** [len(s) - len(s.lstrip(c))] *)
Fixpoint count_leading (c : ascii) (s : string) : nat :=
  match s with
  | EmptyString => O
  | String a s' => if Ascii.eqb a c then S (count_leading c s') else O
  end.

(** A [pathlib.Path] is its parts: the root first when the path is
    absolute, then the components; empty components and ["."] are
    dropped when a path is parsed, [".."] is kept. The root is ["//"]
    when the string starts with exactly two slashes and ["/"] when it
    starts with one or with more than two. *)
Definition Path : Type := list string.

Definition is_part (s : string) : bool :=
  negb (String.eqb s "") && negb (String.eqb s ".").

Definition is_absolute (s : string) : bool :=
  match s with
  | String a _ => Ascii.eqb a "/"
  | EmptyString => false
  end.

Definition root_of (s : string) : list string :=
  match count_leading "/" s with
  | 0%nat => []
  | 2%nat => ["//"]
  | _ => ["/"]
  end.

Definition Path_of_str (s : string) : Path :=
  (root_of s ++ List.filter is_part (str_split "/" s))%list.

(** [p / key]: an absolute [key] replaces [p]. *)
Definition truediv (p : Path) (key : string) : Path :=
  if is_absolute key then Path_of_str key
  else (p ++ Path_of_str key)%list.

(* ===================================================================== *)
(** * The world: the file system and the console *)
(* ===================================================================== *)

(** A place in the file system: the names that lead to it from the root
    directory, which is the empty list. *)
Definition Location : Type := list string.

(** What a run observes and changes. The file system is a tree of
    directories and regular files, without symbolic links, limits on
    names or on space, and with every permission granted: the working
    directory of the process, the directories that exist besides the
    root, the regular files whose content the run does not look at, the
    images written, each at its place, and the lines printed. *)
Record World : Type := mk_World {
  cwd : Location;
  dirs : gset Location;
  files : gset Location;
  written : gmap Location MappedVolume;
  stdout : list string
}.

Definition IO (A : Type) : Type := World → World * result A.

#[global] Instance IO_ret : MRet IO := λ A a w, (w, Ok a).
#[global] Instance IO_bind : MBind IO := λ A B k m w,
  match m w with
  | (w', Ok a) => k a w'
  | (w', Raise e) => (w', Raise e)
  end.

Definition raise {A} (e : exn) : IO A := λ w, (w, Raise e).
Definition lift {A} (r : result A) : IO A := λ w, (w, r).

(** What stands at a place: a directory, a regular file (one of
    [files], or an image), or nothing. *)
Definition is_directory (w : World) (loc : Location) : bool :=
  bool_decide (loc = [] ∨ loc ∈ dirs w).
Definition is_file (w : World) (loc : Location) : bool :=
  bool_decide (loc ∈ files w ∨ is_Some (written w !! loc)).

(** Path resolution, as the system calls do it, one component after the
    other. To look a name up at a place the place has to be a directory:
    [ENOTDIR] when it is a regular file, [ENOENT] when nothing is
    there. *)
Definition enter (w : World) (cur : Location) : result unit :=
  if is_directory w cur then Ok tt
  else if is_file w cur then Raise (OSError ENOTDIR)
  else Raise (OSError ENOENT).

(** [".."] names the directory above, which for the root is the root. *)
Definition step (cur : Location) (part : string) : Location :=
  if String.eqb part ".." then removelast cur
  else if is_part part then (cur ++ [part])%list
  else cur.

Fixpoint walk (w : World) (cur : Location) (parts : list string)
  : result Location :=
  match parts with
  | [] => Ok cur
  | part :: parts' => _ ← enter w cur; walk w (step cur part) parts'
  end.

Definition is_root (s : string) : bool :=
  String.eqb s "/" || String.eqb s "//".

(** The place a path names, whether something stands there or not. A
    path with a null character is turned down before any system call,
    with [ValueError]; an absolute path is resolved from the root, which
    is the same for ["/"] and ["//"], any other from the working
    directory. *)
Definition locate (w : World) (p : Path) : result Location :=
  if existsb (has_char "000"%char) p then Raise ValueError
  else
    match p with
    | r :: parts => if is_root r then walk w [] parts else walk w (cwd w) p
    | [] => Ok (cwd w)
    end.

(** [os.path.isdir(p)] on a [Path] and on a [str]: [False] when the path
    cannot be resolved; the empty string names no file. *)
Definition isdir (w : World) (p : Path) : bool :=
  match locate w p with
  | Ok loc => is_directory w loc
  | Raise _ => false
  end.
Definition isdir_str (w : World) (s : string) : bool :=
  negb (String.eqb s "") && isdir w (Path_of_str s).

Definition os_path_isdir (p : Path) : IO bool := λ w, (w, Ok (isdir w p)).
Definition os_path_isdir_str (s : string) : IO bool :=
  λ w, (w, Ok (isdir_str w s)).

(** [os.mkdir(p)]: [EEXIST] when a directory or a regular file stands at
    the place already. *)
Definition os_mkdir (p : Path) : IO unit :=
  λ w,
    match locate w p with
    | Raise e => (w, Raise e)
    | Ok loc =>
        if is_directory w loc || is_file w loc
        then (w, Raise (OSError EEXIST))
        else (mk_World (cwd w) ({[ loc ]} ∪ dirs w) (files w) (written w)
                (stdout w), Ok tt)
    end.

(** [img.to_filename(p)], for a path that ends in [.nii.gz]: the image
    goes into the one file of that path, which is opened for writing,
    made when it is not there and overwritten when it is; [EISDIR] when a
    directory stands at the place. *)
Definition to_filename (img : MappedVolume) (p : Path) : IO unit :=
  λ w,
    match locate w p with
    | Raise e => (w, Raise e)
    | Ok loc =>
        if is_directory w loc then (w, Raise (OSError EISDIR))
        else (mk_World (cwd w) (dirs w) (files w)
                (<[ loc := img ]> (written w)) (stdout w), Ok tt)
    end.

(** [print(s, end="\r")] *)
Definition print (s : string) : IO unit :=
  λ w, (mk_World (cwd w) (dirs w) (files w) (written w)
          (stdout w ++ [s])%list, Ok tt).

(* ===================================================================== *)
(** * prepare_output *)
(* ===================================================================== *)

Definition prepare_output (out_folder marker_file : string) : IO Path :=
  is_dir ← os_path_isdir_str out_folder;
  if negb is_dir then
    raise (FileNotFoundError (out_folder ++ " is not an existing directory!"))
  else
    let '(_, tail) := os_path_split marker_file in
    let '(file_name, _) := os_path_splitext tail in
    let output_folder := truediv (Path_of_str out_folder) file_name in
    is_dir' ← os_path_isdir output_folder;
    _ ← (if negb is_dir' then os_mkdir output_folder else mret tt);
    mret output_folder.

(* ===================================================================== *)
(** * read_markers *)
(* ===================================================================== *)

(** A [pd.DataFrame] of markers: its named columns, in order. The index
    column of a csv or tsv file is opaque and is left out. *)
Definition DataFrame : Type := list (string * list F64.t).

Definition columns (df : DataFrame) : list string := df.*1.

(** [df[name] = col]: replaces the column of that name or appends one. *)
Fixpoint df_setitem (df : DataFrame) (name : string) (col : list F64.t)
  : DataFrame :=
  match df with
  | [] => [(name, col)]
  | (n, c) :: df' =>
      if String.eqb n name then (name, col) :: df'
      else (n, c) :: df_setitem df' name col
  end.

(** [df[name]] *)
Fixpoint df_getitem (df : DataFrame) (name : string) : result (list F64.t) :=
  match df with
  | [] => Raise KeyError
  | (n, c) :: df' => if String.eqb n name then Ok c else df_getitem df' name
  end.

(** [d[k]] on a dict *)
Definition dict_getitem {V} (d : gmap string V) (k : string) : result V :=
  match d !! k with
  | Some v => Ok v
  | None => Raise KeyError
  end.

Definition tab : string := String "009"%char EmptyString.

Definition marker_format_msg : string :=
  "Marker file should be a txt, csv, or tsv file!".

Section Readers.
(** [np.loadtxt(path, dtype=np.float)] on a file holding one column:
    the numbers of the file, in order. *)
Variable np_loadtxt : string → result (list F64.t).
(** [pd.read_csv(path, index_col=0, sep=sep)] *)
Variable pd_read_csv : string → string → result DataFrame.
(** [nilearn.image.load_img(path)] *)
Variable load_img : string → result LabeledVolume.

(** The extension check of [read_markers]. *)
Definition ext_ok (ext : string) : bool :=
  bool_decide (ext ∈ [".csv"; ".tsv"; ".csv"]).

(** [read_markers] after its assertion: the dispatch on the extension. *)
Definition load_markers (markers_path tail ext : string) : result DataFrame :=
  if bool_decide (ext ∈ [".txt"]) then
    col ← np_loadtxt markers_path;
    let marker : DataFrame := [] in
    let marker := df_setitem marker tail col in
    Ok marker
  else
    let extensions : gmap string string :=
      <[ ".csv" := "," ]> (<[ ".tsv" := tab ]> ∅) in
    sep ← dict_getitem extensions ext;
    pd_read_csv markers_path sep.

Definition read_markers (markers_path : string) : result DataFrame :=
  let '(_, tail) := os_path_split markers_path in
  let '(_, ext) := os_path_splitext markers_path in
  _ ← py_assert (ext_ok ext) marker_format_msg;
  load_markers markers_path tail ext.

Definition load_atlas (path : string) : result LabeledVolume :=
  load_img path.

(* =================================================================== *)
(** * main *)
(* =================================================================== *)

Record Args : Type := mk_Args {
  marker_file : string;
  parcellation_file : string;
  out_folder : string
}.

(** The body of the loop of [main] for the [i]-th column [marker]. *)
Definition write_marker (output_folder : Path) (parcellation : LabeledVolume)
    (markers : DataFrame) (n_total i : nat) (marker : string) : IO unit :=
  _ ← print ("Marker " ++ pretty i ++ "/" ++ pretty n_total);
  col ← lift (df_getitem markers marker);
  marker_img ← lift (map_to_atlas col parcellation);
  let output_file := truediv output_folder (marker ++ ".nii.gz") in
  to_filename marker_img output_file.

(** [for i, marker in enumerate(markers): ...] from position [i] on. *)
Fixpoint write_markers (output_folder : Path) (parcellation : LabeledVolume)
    (markers : DataFrame) (n_total i : nat) (names : list string) : IO unit :=
  match names with
  | [] => mret tt
  | marker :: names' =>
      _ ← write_marker output_folder parcellation markers n_total i marker;
      write_markers output_folder parcellation markers n_total (S i) names'
  end.

Definition main (args : Args) : IO unit :=
  output_folder ← prepare_output (out_folder args) (marker_file args);
  parcellation ← lift (load_atlas (parcellation_file args));
  markers ← lift (read_markers (marker_file args));
  let n_total := length (columns markers) in
  write_markers output_folder parcellation markers n_total 0 (columns markers).
End Readers.

(* ===================================================================== *)
(** * The notions of the specification *)
(* ===================================================================== *)

(** What the specification calls the minimum and the maximum of a list of
    numbers: an element of the list that no element is below (above). *)
Definition is_minimum (m : F64.t) (l : list F64.t) : Prop :=
  m ∈ l ∧ ∀ y, y ∈ l → F64.leb m y = true.
Definition is_maximum (m : F64.t) (l : list F64.t) : Prop :=
  m ∈ l ∧ ∀ y, y ∈ l → F64.leb y m = true.

(** The number of distinct labels of a volume, and of its nonzero labels,
    as the cardinal of a set. *)
Definition n_labels (a : ndarray Z) : nat :=
  size (list_to_set (flat a) : gset Z).
Definition n_rois (a : ndarray Z) : nat :=
  size (list_to_set (flat a) ∖ {[ 0%Z ]} : gset Z).

(** The masked value of a marker: its smallest number minus 20000. *)
Definition sentinel (marker_min : F64.t) : F64.t :=
  F64.sub marker_min mask_offset.

(** The name of the output directory of a run: the base name of the
    marker file with its extension stripped. *)
Definition run_name (marker_file : string) : string :=
  (os_path_splitext (os_path_split marker_file).2).1.

(** The path an image is written to, the line printed before a marker is
    mapped, and the image of a column of the table. *)
Definition image_path (output_folder : Path) (marker : string) : Path :=
  truediv output_folder (marker ++ ".nii.gz").
Definition progress_line (n_total i : nat) : string :=
  "Marker " ++ pretty i ++ "/" ++ pretty n_total.
Definition marker_image (markers : DataFrame) (atlas : LabeledVolume)
    (marker : string) : result MappedVolume :=
  col ← df_getitem markers marker; map_to_atlas col atlas.

(** The output directory of a run. *)
Definition output_dir (args : Args) : Path :=
  truediv (Path_of_str (out_folder args)) (run_name (marker_file args)).

(** The base name of a path, as the specification has it: what follows
    the last slash. *)
Fixpoint base_name (p : string) : string :=
  match p with
  | EmptyString => EmptyString
  | String a p' =>
      if Ascii.eqb a "/" || has_char "/" p' then base_name p'
      else String a p'
  end.

(** A name with its extension stripped, as the specification has it:
    the extension starts at the last dot of the name, where the dots a
    name begins with do not count. *)
Fixpoint cut_last_dot (s : string) : option string :=
  match s with
  | EmptyString => None
  | String a s' =>
      match cut_last_dot s' with
      | Some r => Some (String a r)
      | None => if Ascii.eqb a "." then Some EmptyString else None
      end
  end.
Fixpoint strip_extension (name : string) : string :=
  match name with
  | EmptyString => EmptyString
  | String a name' =>
      if Ascii.eqb a "." then String a (strip_extension name')
      else default name (cut_last_dot name)
  end.

(** A name that an entry of a directory can be made under: not empty,
    not one of the names [.] and [..] that every directory has, and
    without null character. *)
Definition proper_name (s : string) : bool :=
  is_part s && negb (String.eqb s "..") && negb (has_char "000"%char s).

(** A name without slash and without null character. *)
Definition plain_name (s : string) : bool :=
  negb (has_char "/" s) && negb (has_char "000"%char s).

(** The place of the image of a column in the directory at [there]. *)
Definition image_location (there : Location) (marker : string) : Location :=
  (there ++ [(marker ++ ".nii.gz")%string])%list.

(** The world with one more line printed, and the world with one more
    directory. *)
Definition printed (w : World) (line : string) : World :=
  mk_World (cwd w) (dirs w) (files w) (written w) (stdout w ++ [line])%list.
Definition with_directory (w : World) (loc : Location) : World :=
  mk_World (cwd w) ({[ loc ]} ∪ dirs w) (files w) (written w) (stdout w).

(** The images a loop without failure writes into the directory at
    [there], one column after the other. *)
Definition write_images (there : Location) (atlas : LabeledVolume)
    (markers : DataFrame) (names : list string)
    (m : gmap Location MappedVolume) : gmap Location MappedVolume :=
  foldl (λ m name,
           match marker_image markers atlas name with
           | Ok img => <[ image_location there name := img ]> m
           | Raise _ => m
           end) m names.

(** A label is in range when the marker has an entry at label - 1,
    counted from the end when negative. *)
Definition label_in_range (marker : list F64.t) (label : Z) : Prop :=
  (- Z.of_nat (length marker) ≤ label - 1 < Z.of_nat (length marker))%Z.

(* ===================================================================== *)
(** * Scenarios *)
(* ===================================================================== *)

(** A 2×2×1 atlas with the labels [[1, 2], [0, 0]] and the marker
    [10.0, 20.0]. *)
Definition identity_affine : affine_t :=
  let o := F64.of_Z 0 in
  let i := F64.of_Z 1 in
  [[i; o; o; o]; [o; i; o; o]; [o; o; i; o]; [o; o; o; i]].

Definition scenario_atlas : LabeledVolume :=
  mk_Nifti1Image (mk_ndarray [2; 2; 1]%nat [1; 2; 0; 0]%Z) identity_affine
    (mk_Header F64.zero F64.zero).

Definition scenario_marker : list F64.t := [F64.of_Z 10; F64.of_Z 20].

Definition scenario_img : MappedVolume :=
  mk_Nifti1Image
    (mk_ndarray [2; 2; 1]%nat
       [F64.of_Z 10; F64.of_Z 20; F64.of_Z (-19990); F64.of_Z (-19990)])
    identity_affine (mk_Header (F64.of_Z 20) (F64.of_Z 10)).

(** A world in which the output directory of a run exists: the process
    works in [/work], where the directory [out] holds the directory
    [m]. *)
Definition scenario_world : World :=
  mk_World ["work"]
    {[ ["work"]; ["work"; "out"]; ["work"; "out"; "m"] ]} ∅ ∅ [].

(** The marker [0.1, 0.25]: the first number is no float32. *)
Definition tenth : F64.t := F64.div (F64.of_Z 1) (F64.of_Z 10).
Definition tenth_marker : list F64.t :=
  [tenth; F64.div (F64.of_Z 1) (F64.of_Z 4)].

(** The Mapped Volume of that marker on the atlas of the scenario: the
    display range starts at the float32 nearest to 0.1. *)
Definition tenth_img : MappedVolume :=
  mk_Nifti1Image
    (mk_ndarray [2; 2; 1]%nat
       [tenth; F64.div (F64.of_Z 1) (F64.of_Z 4);
        F64.sub tenth (F64.of_Z 20000); F64.sub tenth (F64.of_Z 20000)])
    identity_affine
    (mk_Header (F64.div (F64.of_Z 1) (F64.of_Z 4)) (F32.round tenth)).

(** A marker with a missing value for the second region. *)
Definition nan_marker : list F64.t := [F64.of_Z 10; F64.nan].

(** A marker whose smallest number is so large in magnitude that
    subtracting 20000 does not change it in float64. *)
Definition huge_marker : list F64.t := [F64.of_Z (- 2 ^ 70)].
Definition huge_atlas : LabeledVolume :=
  mk_Nifti1Image (mk_ndarray [2; 1; 1]%nat [1; 0]%Z) identity_affine
    (mk_Header F64.zero F64.zero).

(** An atlas of two regions without a background voxel. *)
Definition full_atlas : LabeledVolume :=
  mk_Nifti1Image (mk_ndarray [2; 1; 1]%nat [1; 2]%Z) identity_affine
    (mk_Header F64.zero F64.zero).

(** A file of five numbers, and a table of two markers. *)
Definition five_numbers : list F64.t :=
  [F64.of_Z 1; F64.of_Z 2; F64.of_Z 3; F64.of_Z 4; F64.of_Z 5].
Definition loadtxt_five (path : string) : result (list F64.t) :=
  Ok five_numbers.
Definition read_csv_two (path sep : string) : result DataFrame :=
  Ok [("A", [F64.of_Z 10; F64.of_Z 20]); ("B", [F64.of_Z 1; F64.nan])].

(** A table with a column whose name holds a slash, between two plain
    ones, and a table of two columns that name the same file. *)
Definition read_csv_nested (path sep : string) : result DataFrame :=
  Ok [("A", [F64.of_Z 10; F64.of_Z 20]); ("a/b", [F64.of_Z 1; F64.of_Z 2]);
      ("C", [F64.of_Z 3; F64.of_Z 4])].
Definition read_csv_aliased (path sep : string) : result DataFrame :=
  Ok [("x", [F64.of_Z 10; F64.of_Z 20]);
      ("../markers/x", [F64.of_Z 1; F64.of_Z 2])].

(** An atlas with a negative label and no background, and the Mapped
    Volume of the marker of the scenario on it. *)
Definition negative_atlas : LabeledVolume :=
  mk_Nifti1Image (mk_ndarray [3; 1; 1]%nat [1; 2; -1]%Z) identity_affine
    (mk_Header F64.zero F64.zero).
Definition negative_img : MappedVolume :=
  mk_Nifti1Image
    (mk_ndarray [3; 1; 1]%nat [F64.of_Z 10; F64.of_Z 20; F64.of_Z 10])
    identity_affine (mk_Header (F64.of_Z 20) (F64.of_Z 10)).

(** A world with the empty directory [out] in the working directory
    [/work], and the same world with a regular file named [thickness] in
    [out]. *)
Definition output_world : World :=
  mk_World ["work"] {[ ["work"]; ["work"; "out"] ]} ∅ ∅ [].
Definition occupied_world : World :=
  mk_World ["work"] {[ ["work"]; ["work"; "out"] ]}
    {[ ["work"; "out"; "thickness"] ]} ∅ [].

(** The world with [out] where an image from an earlier run lies in
    the working directory. *)
Definition archive_world : World :=
  mk_World ["work"] {[ ["work"]; ["work"; "out"] ]} ∅
    {[ ["work"; "old.nii.gz"] := scenario_img ]} [].

(** A run on a table of two markers and the atlas of the scenario. *)
Definition scenario_args : Args :=
  mk_Args "data/markers.csv" "atlas.nii.gz" "out".
Definition load_scenario_atlas (path : string) : result LabeledVolume :=
  Ok scenario_atlas.

(** A run on a plain-text marker file, a run into a directory that does
    not exist, and an atlas that cannot be loaded. *)
Definition txt_args : Args :=
  mk_Args "data/thickness.txt" "atlas.nii.gz" "out".
Definition nowhere_args : Args :=
  mk_Args "data/markers.csv" "atlas.nii.gz" "nowhere".
Definition load_no_atlas (path : string) : result LabeledVolume :=
  Raise (ExternalError "cannot load the atlas").

(* ===================================================================== *)
(** * The order of float64 *)
(* ===================================================================== *)

Section F64_order.
Local Open Scope Z_scope.

Local Ltac sf_compare :=
  unfold F64.ltb, F64.leb, F64.eqb, SFltb, SFleb, SFeqb, SFcompare;
  change (Pos.compare_cont Eq) with Pos.compare;
  repeat match goal with
  | s : bool |- _ => destruct s
  end;
  repeat match goal with
  | |- context [(?a ?= ?b)%Z] => destruct (Z.compare_spec a b)
  | |- context [(?a ?= ?b)%positive] => destruct (Pos.compare_spec a b)
  end;
  simpl; try tauto; try congruence; try lia.

Lemma F64_leb_refl (a : F64.t) : F64.isnan a = false → F64.leb a a = true.
Proof. destruct a; intros Hn; try discriminate; sf_compare. Qed.

Lemma F64_ltb_leb (a b : F64.t) : F64.ltb a b = true → F64.leb a b = true.
Proof. destruct a, b; sf_compare. Qed.

Lemma F64_not_ltb_leb (a b : F64.t) :
  F64.isnan a = false → F64.isnan b = false →
  F64.ltb a b = false → F64.leb b a = true.
Proof. destruct a, b; intros Ha Hb; try discriminate; sf_compare. Qed.

Lemma F64_leb_trans (a b c : F64.t) :
  F64.leb a b = true → F64.leb b c = true → F64.leb a c = true.
Proof. destruct a, b, c; sf_compare. Qed.

Lemma F64_ltb_leb_trans (a b c : F64.t) :
  F64.ltb a b = true → F64.leb b c = true → F64.ltb a c = true.
Proof. destruct a, b, c; sf_compare. Qed.

Lemma F64_ltb_not_eqb (a b : F64.t) :
  F64.ltb a b = true → F64.eqb b a = false.
Proof. destruct a, b; sf_compare. Qed.

Lemma F64_ltb_irrefl (a : F64.t) : F64.ltb a a = false.
Proof. destruct a; sf_compare. Qed.

Lemma F64_leb_not_nan (a b : F64.t) :
  F64.leb a b = true → F64.isnan a = false ∧ F64.isnan b = false.
Proof. destruct a, b; simpl; auto; discriminate. Qed.
End F64_order.

(* ===================================================================== *)
(** * Facts about the numpy operations *)
(* ===================================================================== *)

Section numpy_facts.
Local Open Scope Z_scope.

Lemma elem_of_np_unique (a : ndarray Z) (x : Z) :
  x ∈ np_unique a ↔ x ∈ flat a.
Proof.
  unfold np_unique. rewrite merge_sort_Permutation.
  apply elem_of_remove_dups.
Qed.

Lemma NoDup_np_unique (a : ndarray Z) : NoDup (np_unique a).
Proof.
  unfold np_unique. rewrite merge_sort_Permutation.
  apply NoDup_remove_dups.
Qed.

Lemma Sorted_np_unique (a : ndarray Z) : Sorted Z.le (np_unique a).
Proof. unfold np_unique. apply (Sorted_merge_sort Z.le). Qed.

Lemma length_np_unique (a : ndarray Z) : length (np_unique a) = n_labels a.
Proof.
  unfold n_labels.
  rewrite <- (size_list_to_set (C:=gset Z) (np_unique a))
    by apply NoDup_np_unique.
  f_equal. apply set_eq. intros x.
  rewrite !elem_of_list_to_set. apply elem_of_np_unique.
Qed.

Lemma n_labels_background (a : ndarray Z) :
  0 ∈ flat a → n_labels a = S (n_rois a).
Proof.
  intros H0. unfold n_labels, n_rois.
  set (X := list_to_set (flat a) : gset Z).
  assert (HX : X = {[ 0 ]} ∪ (X ∖ {[ 0 ]})).
  { apply set_eq. intros x. subst X.
    rewrite elem_of_union, elem_of_difference, elem_of_singleton,
      elem_of_list_to_set.
    split.
    - intros Hx. destruct (decide (x = 0)); [by left | by right].
    - by intros [->|[Hx _]]. }
  rewrite HX at 1. rewrite size_union.
  - rewrite size_singleton. reflexivity.
  - apply elem_of_disjoint. intros x Hx1 Hx2.
    by apply elem_of_difference in Hx2 as [_ Hx2].
Qed.

Lemma n_labels_no_background (a : ndarray Z) :
  0 ∉ flat a → n_labels a = n_rois a.
Proof.
  intros H0. unfold n_labels, n_rois. f_equal.
  apply set_eq. intros x.
  rewrite elem_of_difference, elem_of_singleton, elem_of_list_to_set.
  split; [|by intros [Hx _]].
  intros Hx. split; [done|]. by intros ->.
Qed.

Lemma Forall_drop_nan (v : list F64.t) :
  Forall (λ x, F64.isnan x = false) (drop_nan v).
Proof.
  apply Forall_forall. intros x Hx. apply list_elem_of_In in Hx.
  apply filter_In in Hx as [_ Hx]. destruct (F64.isnan x); done.
Qed.

Lemma elem_of_drop_nan (v : list F64.t) (x : F64.t) :
  x ∈ drop_nan v ↔ x ∈ v ∧ F64.isnan x = false.
Proof.
  unfold drop_nan. rewrite !list_elem_of_In, filter_In.
  destruct (F64.isnan x); simpl; split; intros [? ?]; by split.
Qed.

Lemma foldl_np_minimum (xs : list F64.t) (acc : F64.t) :
  F64.isnan acc = false → Forall (λ x, F64.isnan x = false) xs →
  let m := foldl np_minimum acc xs in
  m ∈ acc :: xs ∧ F64.leb m acc = true ∧ ∀ y, y ∈ xs → F64.leb m y = true.
Proof.
  revert acc. induction xs as [|x xs IH]; intros acc Hacc Hxs; simpl.
  - split; [left|]. split; [by apply F64_leb_refl|]. intros y Hy.
    by apply elem_of_nil in Hy.
  - apply Forall_cons in Hxs as [Hx Hxs].
    assert (Hstep : F64.isnan (np_minimum acc x) = false
              ∧ np_minimum acc x ∈ [acc; x]
              ∧ F64.leb (np_minimum acc x) acc = true
              ∧ F64.leb (np_minimum acc x) x = true).
    { unfold np_minimum. rewrite Hacc.
      destruct (F64.ltb acc x) eqn:Hlt.
      - split; [done|]. split; [by left|].
        split; [by apply F64_leb_refl | by apply F64_ltb_leb].
      - split; [done|]. split; [right; by left|].
        split; [by apply F64_not_ltb_leb | by apply F64_leb_refl]. }
    destruct Hstep as (Hn & Hin & Hle1 & Hle2).
    destruct (IH _ Hn Hxs) as (Hm & Hle & Hall).
    split.
    { apply elem_of_cons in Hm as [->|Hm].
      - apply elem_of_cons in Hin as [->|Hin]; [by left|].
        apply list_elem_of_singleton in Hin as ->. right. by left.
      - right. by right. }
    split; [by eapply F64_leb_trans|].
    intros y Hy. apply elem_of_cons in Hy as [->|Hy]; [|by apply Hall].
    by eapply F64_leb_trans.
Qed.

Lemma foldl_np_maximum (xs : list F64.t) (acc : F64.t) :
  F64.isnan acc = false → Forall (λ x, F64.isnan x = false) xs →
  let m := foldl np_maximum acc xs in
  m ∈ acc :: xs ∧ F64.leb acc m = true ∧ ∀ y, y ∈ xs → F64.leb y m = true.
Proof.
  revert acc. induction xs as [|x xs IH]; intros acc Hacc Hxs; simpl.
  - split; [left|]. split; [by apply F64_leb_refl|]. intros y Hy.
    by apply elem_of_nil in Hy.
  - apply Forall_cons in Hxs as [Hx Hxs].
    assert (Hstep : F64.isnan (np_maximum acc x) = false
              ∧ np_maximum acc x ∈ [acc; x]
              ∧ F64.leb acc (np_maximum acc x) = true
              ∧ F64.leb x (np_maximum acc x) = true).
    { unfold np_maximum. rewrite Hacc.
      destruct (F64.ltb x acc) eqn:Hlt.
      - split; [done|]. split; [by left|].
        split; [by apply F64_leb_refl | by apply F64_ltb_leb].
      - split; [done|]. split; [right; by left|].
        split; [by apply F64_not_ltb_leb | by apply F64_leb_refl]. }
    destruct Hstep as (Hn & Hin & Hle1 & Hle2).
    destruct (IH _ Hn Hxs) as (Hm & Hle & Hall).
    split.
    { apply elem_of_cons in Hm as [->|Hm].
      - apply elem_of_cons in Hin as [->|Hin]; [by left|].
        apply list_elem_of_singleton in Hin as ->. right. by left.
      - right. by right. }
    split; [by eapply F64_leb_trans|].
    intros y Hy. apply elem_of_cons in Hy as [->|Hy]; [|by apply Hall].
    by eapply F64_leb_trans.
Qed.

Lemma np_min_is_minimum (l : list F64.t) (m : F64.t) :
  Forall (λ x, F64.isnan x = false) l → np_min l = Ok m → is_minimum m l.
Proof.
  destruct l as [|x xs]; [discriminate|]. intros Hl [= <-].
  apply Forall_cons in Hl as [Hx Hxs].
  destruct (foldl_np_minimum xs x Hx Hxs) as (Hin & Hle & Hall).
  split; [done|]. intros y Hy.
  apply elem_of_cons in Hy as [->|Hy]; auto.
Qed.

Lemma np_max_is_maximum (l : list F64.t) (m : F64.t) :
  Forall (λ x, F64.isnan x = false) l → np_max l = Ok m → is_maximum m l.
Proof.
  destruct l as [|x xs]; [discriminate|]. intros Hl [= <-].
  apply Forall_cons in Hl as [Hx Hxs].
  destruct (foldl_np_maximum xs x Hx Hxs) as (Hin & Hle & Hall).
  split; [done|]. intros y Hy.
  apply elem_of_cons in Hy as [->|Hy]; auto.
Qed.

Lemma np_getitem_nonneg {A} (v : list A) (i : Z) (x : A) :
  0 ≤ i → (np_getitem v i = Ok x ↔ v !! Z.to_nat i = Some x).
Proof.
  intros Hi. unfold np_getitem.
  destruct (Z.ltb_spec i (- Z.of_nat (length v))); [lia|].
  destruct (Z.leb_spec (Z.of_nat (length v)) i); simpl.
  - rewrite (lookup_ge_None_2 v (Z.to_nat i)) by lia. naive_solver.
  - destruct (Z.ltb_spec i 0); [lia|].
    destruct (v !! Z.to_nat i); naive_solver.
Qed.

Lemma np_getitem_elem_of {A} (v : list A) (i : Z) (x : A) :
  np_getitem v i = Ok x → x ∈ v.
Proof.
  unfold np_getitem.
  destruct (_ || _); [discriminate|].
  destruct (v !! _) eqn:E; [|discriminate]. intros [= <-].
  by eapply list_elem_of_lookup_2.
Qed.

Lemma length_setitem_mask {A} (a : ndarray A) (mask : ndarray bool) (x : A) :
  length (flat mask) = length (flat a) →
  length (flat (setitem_mask a mask x)) = length (flat a).
Proof. intros H. simpl. rewrite length_zip_with. lia. Qed.

Lemma lookup_setitem_mask {A} (a : ndarray A) (mask : ndarray bool) (x : A)
    (i : nat) (b : bool) (old : A) :
  flat mask !! i = Some b → flat a !! i = Some old →
  flat (setitem_mask a mask x) !! i = Some (if b then x else old).
Proof.
  intros Hm Ha. simpl. rewrite lookup_zip_with, Hm. simpl. by rewrite Ha.
Qed.

Lemma lookup_np_equal (a : ndarray Z) (x : Z) (i : nat) (y : Z) :
  flat a !! i = Some y → flat (np_equal a x) !! i = Some (y =? x).
Proof. intros H. simpl. by rewrite list_lookup_fmap, H. Qed.
End numpy_facts.

(* ===================================================================== *)
(** * Facts about paths *)
(* ===================================================================== *)

Section path_facts.
Local Open Scope Z_scope.

Lemma append_empty (s : string) : (s ++ "")%string = s.
Proof.
  induction s as [|a s IH]; [done|].
  change (String a (s ++ "")%string = String a s). by rewrite IH.
Qed.

Lemma substring_all (s : string) : substring 0 (String.length s) s = s.
Proof. induction s as [|a s IH]; simpl; [done|]. by rewrite IH. Qed.

Lemma slice_from_drop (s : string) (i : Z) :
  slice_from s i = str_drop (Z.to_nat i) s.
Proof.
  unfold slice_from. generalize (Z.to_nat i) as n. clear i.
  induction s as [|a s IH]; intros [|n]; simpl; try done.
  by rewrite substring_all.
Qed.

Lemma str_drop_add (s : string) (n k : nat) :
  str_drop (n + k) s = str_drop k (str_drop n s).
Proof.
  revert s. induction n as [|n IH]; intros s; simpl; [done|].
  destruct s as [|a s]; [by destruct k|]. apply IH.
Qed.

Lemma substring_str_drop (s : string) (n : nat) :
  s = (substring 0 n s ++ str_drop n s)%string.
Proof.
  revert s. induction n as [|n IH]; intros s; simpl.
  - by destruct s.
  - destruct s as [|a s]; [done|].
    change (String a s
            = String a (substring 0 n s ++ str_drop n s)%string).
    f_equal. apply IH.
Qed.

Lemma has_char_substring (c : ascii) (s : string) (n : nat) :
  has_char c s = false → has_char c (substring 0 n s) = false.
Proof.
  revert s. induction n as [|n IH]; intros s; [by destruct s|].
  destruct s as [|a s]; simpl; [done|].
  intros H. apply orb_false_iff in H as [-> H]. simpl. by apply IH.
Qed.

(** [rfind] returns the position of an occurrence with no occurrence
    behind it, or the default when there is none. *)
Lemma rfind_from_spec (c : ascii) (s : string) (i last : Z) :
  (rfind_from c s i last = last ∧ has_char c s = false)
  ∨ (i ≤ rfind_from c s i last
     ∧ has_char c (str_drop (S (Z.to_nat (rfind_from c s i last - i))) s)
       = false).
Proof.
  revert i last. induction s as [|a s IH]; intros i last; simpl.
  - by left.
  - destruct (IH (i + 1) (if Ascii.eqb a c then i else last))
      as [[Hr Hno]|[Hle Hno]].
    + destruct (Ascii.eqb a c) eqn:Hac; simpl.
      * right. rewrite Hr. split; [lia|].
        replace (Z.to_nat (i - i)) with 0%nat by lia. done.
      * left. by rewrite Hr.
    + right. split; [lia|].
      replace (Z.to_nat (rfind_from c s (i + 1)
                 (if Ascii.eqb a c then i else last) - i))
        with (S (Z.to_nat (rfind_from c s (i + 1)
                   (if Ascii.eqb a c then i else last) - (i + 1))))
        by lia.
      done.
Qed.

Lemma rfind_lower (c : ascii) (s : string) : -1 ≤ rfind c s.
Proof.
  unfold rfind. destruct (rfind_from_spec c s 0 (-1)) as [[-> _]|[H _]]; lia.
Qed.

Lemma os_path_split_tail (p : string) :
  (os_path_split p).2 = str_drop (Z.to_nat (rfind "/" p + 1)) p.
Proof. unfold os_path_split. cbn [snd]. apply slice_from_drop. Qed.

(** The base name of a path holds no slash. *)
Lemma os_path_split_tail_no_sep (p : string) :
  has_char "/" (os_path_split p).2 = false.
Proof.
  rewrite os_path_split_tail. unfold rfind.
  destruct (rfind_from_spec "/" p 0 (-1)) as [[-> Hno]|[Hle Hno]].
  - done.
  - replace (Z.to_nat (rfind_from "/" p 0 (-1) + 1))
      with (S (Z.to_nat (rfind_from "/" p 0 (-1) - 0))) by lia.
    done.
Qed.

Lemma os_path_splitext_root_no_sep (s : string) :
  has_char "/" s = false → has_char "/" (os_path_splitext s).1 = false.
Proof.
  intros H. unfold os_path_splitext. destruct (_ && _); cbn [fst]; [|done].
  by apply has_char_substring.
Qed.

(** The extension of a path is the end of its base name. *)
Lemma os_path_split_splitext (p : string) :
  ∃ stem, (os_path_split p).2 = (stem ++ (os_path_splitext p).2)%string.
Proof.
  rewrite os_path_split_tail. unfold os_path_splitext.
  pose proof (rfind_lower "/" p) as Hsep.
  destruct (Z.ltb_spec (rfind "/" p) (rfind "." p)) as [Hlt|Hge];
    cbn [andb].
  2: { exists (str_drop (Z.to_nat (rfind "/" p + 1)) p). cbn [snd].
       by rewrite append_empty. }
  destruct (has_non_dot _ _ _); cbn [snd].
  2: { exists (str_drop (Z.to_nat (rfind "/" p + 1)) p).
       by rewrite append_empty. }
  rewrite slice_from_drop.
  replace (Z.to_nat (rfind "." p))
    with (Z.to_nat (rfind "/" p + 1)
          + Z.to_nat (rfind "." p - (rfind "/" p + 1)))%nat by lia.
  rewrite str_drop_add. eexists. apply substring_str_drop.
Qed.

Lemma str_split_no_sep (c : ascii) (s : string) :
  has_char c s = false → str_split c s = [s].
Proof.
  induction s as [|a s IH]; simpl; [done|].
  intros H. apply orb_false_iff in H as [-> H]. by rewrite (IH H).
Qed.

Lemma rfind_from_absent (c : ascii) (s : string) (i last : Z) :
  has_char c s = false → rfind_from c s i last = last.
Proof.
  revert i last. induction s as [|a s IH]; intros i last; simpl; [done|].
  intros H. apply orb_false_iff in H as [-> H]. by apply IH.
Qed.

(** The base name of a base name is itself. *)
Lemma os_path_split_tail_idem (p : string) :
  (os_path_split (os_path_split p).2).2 = (os_path_split p).2.
Proof.
  rewrite (os_path_split_tail (os_path_split p).2). unfold rfind.
  by rewrite rfind_from_absent by apply os_path_split_tail_no_sep.
Qed.

Lemma rfind_from_shift (c : ascii) (s : string) (i last d : Z) :
  rfind_from c s (i + d) (last + d) = rfind_from c s i last + d.
Proof.
  revert i last. induction s as [|a s IH]; intros i last; simpl; [done|].
  rewrite <- IH. f_equal; [lia|]. by destruct (Ascii.eqb a c).
Qed.

Lemma rfind_from_present (c : ascii) (s : string) (i last last' : Z) :
  has_char c s = true → rfind_from c s i last = rfind_from c s i last'.
Proof.
  revert i last last'. induction s as [|a s IH]; intros i last last'; simpl;
    [done|].
  destruct (Ascii.eqb a c); simpl; [done|]. apply IH.
Qed.

Lemma rfind_from_drop (c : ascii) (s : string) (n : nat) (i last : Z) :
  rfind_from c s i last
  = rfind_from c (str_drop n s) (i + Z.of_nat n)
      (rfind_from c (substring 0 n s) i last).
Proof.
  revert s i last. induction n as [|n IH]; intros s i last.
  - destruct s; simpl; by rewrite ?Z.add_0_r.
  - destruct s as [|a s]; [done|].
    change (rfind_from c s (i + 1) (if Ascii.eqb a c then i else last)
            = rfind_from c (str_drop n s) (i + Z.of_nat (S n))
                (rfind_from c (substring 0 n s) (i + 1)
                   (if Ascii.eqb a c then i else last))).
    rewrite (IH s (i + 1)). f_equal. lia.
Qed.

Lemma rfind_from_upper (c : ascii) (s : string) (i last : Z) :
  rfind_from c s i last ≤ Z.max last (i + Z.of_nat (String.length s) - 1).
Proof.
  revert i last. induction s as [|a s IH]; intros i last; simpl String.length.
  - simpl. lia.
  - simpl rfind_from.
    pose proof (IH (i + 1) (if Ascii.eqb a c then i else last)) as H.
    destruct (Ascii.eqb a c); lia.
Qed.

Lemma length_substring_le (s : string) (n : nat) :
  (String.length (substring 0 n s) ≤ n)%nat.
Proof.
  revert s. induction n as [|n IH]; intros s; [by destruct s|].
  destruct s as [|a s]; simpl; [lia|]. specialize (IH s). lia.
Qed.

Lemma get_str_drop (s : string) (k j : nat) :
  String.get (k + j) s = String.get j (str_drop k s).
Proof.
  revert s. induction k as [|k IH]; intros s; [done|].
  destruct s as [|a s]; simpl; [by destruct j|]. apply IH.
Qed.

Lemma has_non_dot_str_drop (s : string) (k j n : nat) :
  has_non_dot s (k + j) n = has_non_dot (str_drop k s) j n.
Proof.
  revert j. induction n as [|n IH]; intros j; [done|].
  simpl. rewrite get_str_drop.
  replace (S (k + j)) with (k + S j)%nat by lia. by rewrite IH.
Qed.

Lemma rfind_present_nonneg (c : ascii) (s : string) :
  has_char c s = true → 0 ≤ rfind c s.
Proof.
  intros H. unfold rfind.
  destruct (rfind_from_spec c s 0 (-1)) as [[_ Hno]|[Hle _]]; [congruence|done].
Qed.

Lemma count_leading_no_sep (c : ascii) (s : string) :
  has_char c s = false → count_leading c s = 0%nat.
Proof.
  destruct s as [|a s]; simpl; [done|].
  intros H. by apply orb_false_iff in H as [-> _].
Qed.

Lemma is_absolute_no_sep (s : string) :
  has_char "/" s = false → is_absolute s = false.
Proof.
  destruct s as [|a s]; simpl; [done|].
  intros H. by apply orb_false_iff in H as [-> _].
Qed.

(** A name without a slash is a path of one part, or of none when it is
    the empty name or ["."]; joining it to a path appends that part. *)
Lemma Path_of_str_no_sep (s : string) :
  has_char "/" s = false →
  Path_of_str s = if is_part s then [s] else [].
Proof.
  intros Hno. unfold Path_of_str, root_of.
  rewrite (count_leading_no_sep _ _ Hno), (str_split_no_sep _ _ Hno).
  simpl. by destruct (is_part s).
Qed.

Lemma Path_of_str_name (s : string) :
  has_char "/" s = false → is_part s = true → Path_of_str s = [s].
Proof. intros Hno Hpart. by rewrite (Path_of_str_no_sep _ Hno), Hpart. Qed.

Lemma truediv_no_sep (p : Path) (s : string) :
  has_char "/" s = false →
  truediv p s = (p ++ if is_part s then [s] else [])%list.
Proof.
  intros Hno. unfold truediv.
  by rewrite (is_absolute_no_sep _ Hno), (Path_of_str_no_sep _ Hno).
Qed.

Lemma truediv_name (p : Path) (s : string) :
  has_char "/" s = false → is_part s = true → truediv p s = (p ++ [s])%list.
Proof. intros Hno Hpart. by rewrite (truediv_no_sep _ _ Hno), Hpart. Qed.
End path_facts.

(* ===================================================================== *)
(** * What map_to_atlas computes *)
(* ===================================================================== *)

Section map_to_atlas_facts.
Local Open Scope Z_scope.
Implicit Types (marker : list F64.t) (atlas : LabeledVolume).
Implicit Types (atlas_array : ndarray Z) (arr : ndarray F64.t).

(** The loop over the labels: a voxel whose label is one of the labels
    visited, and not 0, holds the value of the marker at that label
    minus one; every other voxel is left as it was. *)
Lemma map_rois_spec marker atlas_array rois arr arr' :
  map_rois marker atlas_array rois arr = Ok arr' →
  length (flat atlas_array) = length (flat arr) →
  shape arr' = shape arr ∧ length (flat arr') = length (flat arr) ∧
  ∀ (x : nat) (label : Z), flat atlas_array !! x = Some label →
    (label ∈ rois → label ≠ 0 →
       ∃ value, np_getitem marker (label - 1) = Ok value
                ∧ flat arr' !! x = Some value)
    ∧ (label ∉ rois ∨ label = 0 → flat arr' !! x = flat arr !! x).
Proof.
  revert arr. induction rois as [|roi rois IH]; intros arr Hrun Hlen.
  - injection Hrun as <-. split; [done|]. split; [done|].
    intros x label Hx. split; [|done].
    intros Hin. by apply elem_of_nil in Hin.
  - simpl in Hrun. unfold map_roi in Hrun at 1.
    destruct (Z.eqb_spec roi 0) as [->|Hroi].
    + simpl in Hrun. destruct (IH _ Hrun Hlen) as (Hsh & Hl & Hvox).
      split; [done|]. split; [done|]. intros x label Hx.
      destruct (Hvox x label Hx) as [Hin Hout]. split.
      * intros Hl' H0. apply Hin; [|done].
        apply elem_of_cons in Hl' as [->|]; done.
      * intros [Hnin | ->]; apply Hout; [left|right; done].
        intros ?. apply Hnin. by right.
    + destruct (np_getitem marker (roi - 1)) as [value|e] eqn:Hval;
        [|discriminate].
      simpl in Hrun.
      set (arr1 := setitem_mask arr (np_equal atlas_array roi) value) in *.
      assert (Hlen1 : length (flat arr1) = length (flat arr)).
      { apply length_setitem_mask. simpl. by rewrite length_fmap. }
      destruct (IH arr1 Hrun) as (Hsh & Hl & Hvox); [congruence|].
      split; [done|]. split; [congruence|]. intros x label Hx.
      destruct (Hvox x label Hx) as [Hin Hout].
      assert (Hold : ∃ old, flat arr !! x = Some old).
      { apply lookup_lt_is_Some. rewrite <- Hlen.
        apply lookup_lt_is_Some. eauto. }
      destruct Hold as [old Hold].
      pose proof (lookup_setitem_mask arr _ value x _ old
                    (lookup_np_equal atlas_array roi x label Hx) Hold)
        as Harr1.
      fold arr1 in Harr1. split.
      * intros Hl' H0. destruct (decide (label ∈ rois)) as [Hr|Hr];
          [by apply Hin|].
        apply elem_of_cons in Hl' as [->|]; [|done].
        exists value. split; [done|].
        rewrite Hout by (by left). rewrite Harr1. by rewrite Z.eqb_refl.
      * intros Hcase.
        assert (Hne : label ≠ roi).
        { destruct Hcase as [Hnin | ->]; [|congruence].
          intros ->. apply Hnin. by left. }
        rewrite Hout.
        -- rewrite Harr1, Hold. by destruct (Z.eqb_spec label roi).
        -- destruct Hcase as [Hnin | ->]; [left|by right].
           intros ?. apply Hnin. by right.
Qed.

(** The loop keeps the shape of the array it fills. *)
Lemma map_rois_shape marker atlas_array rois arr arr' :
  map_rois marker atlas_array rois arr = Ok arr' → shape arr' = shape arr.
Proof.
  revert arr. induction rois as [|roi rois IH]; intros arr Hrun.
  - by injection Hrun as <-.
  - simpl in Hrun. unfold map_roi in Hrun at 1.
    destruct (roi =? 0); simpl in Hrun; [by apply IH|].
    destruct (np_getitem marker (roi - 1)); [|discriminate].
    simpl in Hrun. by rewrite (IH _ Hrun).
Qed.

(** The loop succeeds when every nonzero label indexes the marker. *)
Lemma map_rois_returns marker atlas_array rois arr :
  (∀ roi, roi ∈ rois → roi ≠ 0 →
     - Z.of_nat (length marker) ≤ roi - 1 < Z.of_nat (length marker)) →
  ∃ arr', map_rois marker atlas_array rois arr = Ok arr'.
Proof.
  revert arr. induction rois as [|roi rois IH]; intros arr Hidx.
  - by eexists.
  - simpl. unfold map_roi at 1. destruct (Z.eqb_spec roi 0) as [->|Hroi].
    + simpl. apply IH. intros r Hr. apply Hidx. by right.
    + assert (Hb := Hidx roi ltac:(by left) Hroi).
      unfold np_getitem.
      destruct (Z.ltb_spec (roi - 1) (- Z.of_nat (length marker))); [lia|].
      destruct (Z.leb_spec (Z.of_nat (length marker)) (roi - 1)); [lia|].
      simpl.
      destruct (lookup_lt_is_Some_2 marker
        (Z.to_nat (if roi - 1 <? 0
                   then roi - 1 + Z.of_nat (length marker) else roi - 1)))
        as [value ->].
      { destruct (Z.ltb_spec (roi - 1) 0); lia. }
      simpl. apply IH. intros r Hr. apply Hidx. by right.
Qed.

(** The steps of a call that returns. *)
Lemma map_to_atlas_Ok marker atlas img :
  map_to_atlas marker atlas = Ok img →
  ∃ marker_min marker_max arr,
    roi_count_ok marker (dataobj atlas) = true
    ∧ np_min (drop_nan marker) = Ok marker_min
    ∧ np_max (drop_nan marker) = Ok marker_max
    ∧ map_rois marker (dataobj atlas) (np_unique (dataobj atlas))
        (np_zeros (shape (dataobj atlas))) = Ok arr
    ∧ img = mk_Nifti1Image
        (setitem_mask
           (setitem_mask arr (np_isnan arr) (sentinel marker_min))
           (np_equal (dataobj atlas) 0) (sentinel marker_min))
        (affine atlas)
        (mk_Header (F32.round marker_max) (F32.round marker_min)).
Proof.
  unfold map_to_atlas, py_assert. intros H.
  destruct (roi_count_ok marker (dataobj atlas)); [|discriminate].
  simpl in H.
  destruct (np_min (drop_nan marker)) as [marker_min|]; [|discriminate].
  destruct (np_max (drop_nan marker)) as [marker_max|]; [|discriminate].
  simpl in H.
  destruct (map_rois _ _ _ _) as [arr|] eqn:Hloop; [|discriminate].
  simpl in H. injection H as <-.
  exists marker_min, marker_max, arr. done.
Qed.

(** The errors the steps after the validation can raise. *)
Lemma np_min_Raise (l : list F64.t) (e : exn) :
  np_min l = Raise e → e = ValueError.
Proof. destruct l; simpl; congruence. Qed.

Lemma np_max_Raise (l : list F64.t) (e : exn) :
  np_max l = Raise e → e = ValueError.
Proof. destruct l; simpl; congruence. Qed.

Lemma map_rois_Raise marker atlas_array rois arr (e : exn) :
  map_rois marker atlas_array rois arr = Raise e → e = IndexError.
Proof.
  revert arr. induction rois as [|roi rois IH]; intros arr; [done|].
  simpl. unfold map_roi at 1. destruct (roi =? 0); simpl; [apply IH|].
  unfold np_getitem. destruct (_ || _); simpl; [congruence|].
  destruct (marker !! _); simpl; [apply IH | congruence].
Qed.

(** A call fails the length validation exactly when it raises the
    assertion error of the validation. *)
Lemma map_to_atlas_mismatch marker atlas :
  roi_count_ok marker (dataobj atlas) = false ↔
  map_to_atlas marker atlas = Raise (AssertionError roi_mismatch_msg).
Proof.
  unfold map_to_atlas, py_assert.
  destruct (roi_count_ok marker (dataobj atlas)); simpl; [|done].
  split; [done|]. intros H. exfalso.
  destruct (np_min _) as [|e1] eqn:E1; simpl in H.
  2: { apply np_min_Raise in E1. congruence. }
  destruct (np_max _) as [|e2] eqn:E2; simpl in H.
  2: { apply np_max_Raise in E2. congruence. }
  destruct (map_rois _ _ _ _) as [|e3] eqn:E3; simpl in H; [done|].
  apply map_rois_Raise in E3. congruence.
Qed.

Lemma np_getitem_Ok_range {A} (v : list A) (i : Z) (x : A) :
  np_getitem v i = Ok x →
  - Z.of_nat (length v) ≤ i < Z.of_nat (length v).
Proof.
  unfold np_getitem.
  destruct (Z.ltb_spec i (- Z.of_nat (length v))); [done|].
  destruct (Z.leb_spec (Z.of_nat (length v)) i); [done|]. lia.
Qed.

Lemma map_rois_Ok_index marker atlas_array rois arr arr' :
  map_rois marker atlas_array rois arr = Ok arr' →
  ∀ roi, roi ∈ rois → roi ≠ 0 →
    - Z.of_nat (length marker) ≤ roi - 1 < Z.of_nat (length marker).
Proof.
  revert arr. induction rois as [|roi rois IH]; intros arr Hrun r Hr Hne.
  - by apply elem_of_nil in Hr.
  - simpl in Hrun. unfold map_roi in Hrun at 1.
    destruct (Z.eqb_spec roi 0) as [->|Hroi]; simpl in Hrun.
    + apply elem_of_cons in Hr as [->|Hr]; [done|]. by eapply IH.
    + destruct (np_getitem marker (roi - 1)) as [value|] eqn:Hval;
        [|discriminate].
      simpl in Hrun. apply elem_of_cons in Hr as [->|Hr]; [|by eapply IH].
      by eapply np_getitem_Ok_range.
Qed.

(** A call returns a Mapped Volume exactly when the validation passes,
    some number of the marker is not NaN and every nonzero label indexes
    the marker. *)
Lemma map_to_atlas_returns marker atlas :
  (∃ img, map_to_atlas marker atlas = Ok img)
  ↔ roi_count_ok marker (dataobj atlas) = true
    ∧ (∃ y, y ∈ marker ∧ F64.isnan y = false)
    ∧ (∀ label, label ∈ flat (dataobj atlas) → label ≠ 0 →
         - Z.of_nat (length marker) ≤ label - 1 < Z.of_nat (length marker)).
Proof.
  split.
  - intros [img Hrun].
    destruct (map_to_atlas_Ok _ _ _ Hrun)
      as (marker_min & marker_max & arr & Hok & Hmin & _ & Hloop & _).
    split; [done|]. split.
    + exists marker_min.
      destruct (np_min_is_minimum _ _ (Forall_drop_nan marker) Hmin)
        as [Hin _].
      by apply elem_of_drop_nan in Hin.
    + intros label Hl. apply (map_rois_Ok_index _ _ _ _ _ Hloop).
      by apply elem_of_np_unique.
  - intros (Hok & (y & Hy & Hnan) & Hidx). unfold map_to_atlas, py_assert.
    rewrite Hok. simpl.
    assert (Hin : y ∈ drop_nan marker) by by apply elem_of_drop_nan.
    destruct (drop_nan marker) as [|z zs]; [by apply elem_of_nil in Hin|].
    simpl.
    destruct (map_rois_returns marker (dataobj atlas)
                (np_unique (dataobj atlas))
                (np_zeros (shape (dataobj atlas)))) as [arr ->].
    { intros roi Hroi. apply Hidx. by apply elem_of_np_unique. }
    simpl. by eexists.
Qed.

(** The value of every voxel of the Mapped Volume. *)
Lemma map_to_atlas_voxel marker atlas img (x : nat) (label : Z) :
  map_to_atlas marker atlas = Ok img →
  wf_ndarray (dataobj atlas) →
  flat (dataobj atlas) !! x = Some label →
  ∃ marker_min,
    np_min (drop_nan marker) = Ok marker_min
    ∧ (label = 0 →
         flat (dataobj img) !! x = Some (sentinel marker_min))
    ∧ (label ≠ 0 →
         ∃ value, np_getitem marker (label - 1) = Ok value
           ∧ flat (dataobj img) !! x =
               Some (if F64.isnan value then sentinel marker_min
                     else value)).
Proof.
  intros Hrun Hwf Hx.
  destruct (map_to_atlas_Ok _ _ _ Hrun)
    as (marker_min & marker_max & arr & Hok & Hmin & Hmax & Hloop & ->).
  exists marker_min. split; [done|].
  destruct (map_rois_spec _ _ _ _ _ Hloop) as (Hsh & Hlen & Hvox).
  { simpl. rewrite length_replicate. apply Hwf. }
  simpl in Hlen. rewrite length_replicate in Hlen.
  assert (Harr : ∃ old, flat arr !! x = Some old).
  { apply lookup_lt_is_Some. rewrite Hlen, <- Hwf.
    apply lookup_lt_is_Some. eauto. }
  destruct Harr as [old Hold].
  assert (Hnan : flat (setitem_mask arr (np_isnan arr) (sentinel marker_min))
                   !! x
                 = Some (if F64.isnan old then sentinel marker_min else old)).
  { apply lookup_setitem_mask; [|done]. simpl.
    by rewrite list_lookup_fmap, Hold. }
  pose proof (lookup_setitem_mask _ _ (sentinel marker_min) x _ _
                (lookup_np_equal (dataobj atlas) 0 x label Hx) Hnan) as Hbg.
  simpl dataobj. rewrite Hbg. split.
  - intros ->. done.
  - intros Hne. destruct (Hvox x label Hx) as [Hin _].
    destruct Hin as (value & Hval & Hv); [|done|].
    { apply elem_of_np_unique. by eapply list_elem_of_lookup_2. }
    exists value. split; [done|].
    assert (old = value) as -> by congruence.
    by destruct (Z.eqb_spec label 0).
Qed.
End map_to_atlas_facts.

(* ===================================================================== *)
(** * The scenario of the specification *)
(* ===================================================================== *)

Example scenario_runs :
  map_to_atlas scenario_marker scenario_atlas = Ok scenario_img.
Proof. vm_compute. reflexivity. Qed.

Example nan_marker_runs :
  map_to_atlas nan_marker scenario_atlas
  = Ok (mk_Nifti1Image
          (mk_ndarray [2; 2; 1]%nat
             [F64.of_Z 10; F64.of_Z (-19990); F64.of_Z (-19990);
              F64.of_Z (-19990)])
          identity_affine (mk_Header (F64.of_Z 10) (F64.of_Z 10))).
Proof. vm_compute. reflexivity. Qed.

(* ===================================================================== *)
(** * The Atlas Mapper *)
(* ===================================================================== *)

Section mapper_claims.
Local Open Scope Z_scope.
Implicit Types (marker : list F64.t) (atlas : LabeledVolume).
Implicit Types (img : MappedVolume).

(** C1. Positional correspondence: in the Mapped Volume that
    [map_to_atlas] returns for a marker and a Labeled Volume, a voxel [x]
    whose atlas label is [k] with [k >= 1] holds the marker's value at
    index [k-1] whenever that value is not NaN. *)
Theorem map_to_atlas_positional marker atlas img (x : nat) (k : Z)
    (value : F64.t) :
  map_to_atlas marker atlas = Ok img →
  wf_ndarray (dataobj atlas) →
  flat (dataobj atlas) !! x = Some k →
  1 ≤ k →
  marker !! Z.to_nat (k - 1) = Some value →
  F64.isnan value = false →
  flat (dataobj img) !! x = Some value.
Proof.
  intros Hrun Hwf Hx Hk Hval Hnan.
  destruct (map_to_atlas_voxel _ _ _ _ _ Hrun Hwf Hx)
    as (marker_min & _ & _ & Hroi).
  destruct Hroi as (value' & Hget & ->); [lia|].
  apply np_getitem_nonneg in Hget; [|lia].
  assert (value' = value) as -> by congruence.
  by rewrite Hnan.
Qed.

Lemma map_to_atlas_positional_witness :
  map_to_atlas scenario_marker scenario_atlas = Ok scenario_img
  ∧ flat (dataobj scenario_img) !! 1%nat = Some (F64.of_Z 20).
Proof.
  split; [exact scenario_runs|].
  apply (map_to_atlas_positional scenario_marker scenario_atlas scenario_img
           1%nat 2 (F64.of_Z 20)).
  - exact scenario_runs.
  - reflexivity.
  - reflexivity.
  - lia.
  - reflexivity.
  - reflexivity.
Defined.

(** C2. Masking: in the Mapped Volume that [map_to_atlas] returns, every
    voxel whose atlas label is 0 and every voxel whose sourced marker
    value is NaN holds exactly the sentinel [marker_min - 20000], where
    [marker_min] is the minimum of the entries of the marker that are not
    NaN. *)
Theorem map_to_atlas_masked marker atlas img :
  map_to_atlas marker atlas = Ok img →
  wf_ndarray (dataobj atlas) →
  ∃ marker_min,
    is_minimum marker_min (drop_nan marker)
    ∧ ∀ (x : nat) (label : Z),
        flat (dataobj atlas) !! x = Some label →
        (label = 0
         ∨ ∃ value, np_getitem marker (label - 1) = Ok value
                    ∧ F64.isnan value = true) →
        flat (dataobj img) !! x = Some (F64.sub marker_min (F64.of_Z 20000)).
Proof.
  intros Hrun Hwf.
  destruct (map_to_atlas_Ok _ _ _ Hrun)
    as (marker_min & _ & _ & _ & Hmin & _).
  exists marker_min. split.
  { apply np_min_is_minimum; [apply Forall_drop_nan | done]. }
  intros x label Hx Hcase.
  destruct (map_to_atlas_voxel _ _ _ _ _ Hrun Hwf Hx)
    as (marker_min' & Hmin' & Hbg & Hroi).
  assert (marker_min' = marker_min) as -> by congruence.
  destruct (decide (label = 0)) as [->|Hne]; [by apply Hbg|].
  destruct Hcase as [?|(value & Hget & Hnan)]; [done|].
  destruct (Hroi Hne) as (value' & Hget' & ->).
  assert (value' = value) as -> by congruence.
  by rewrite Hnan.
Qed.

Lemma map_to_atlas_masked_witness :
  ∃ marker_min,
    is_minimum marker_min (drop_nan nan_marker)
    ∧ ∀ (x : nat) (label : Z),
        flat (dataobj scenario_atlas) !! x = Some label →
        (label = 0
         ∨ ∃ value, np_getitem nan_marker (label - 1) = Ok value
                    ∧ F64.isnan value = true) →
        flat (mk_ndarray [2; 2; 1]%nat
                [F64.of_Z 10; F64.of_Z (-19990); F64.of_Z (-19990);
                 F64.of_Z (-19990)]) !! x
        = Some (F64.sub marker_min (F64.of_Z 20000)).
Proof.
  apply (map_to_atlas_masked nan_marker scenario_atlas
           (mk_Nifti1Image
              (mk_ndarray [2; 2; 1]%nat
                 [F64.of_Z 10; F64.of_Z (-19990); F64.of_Z (-19990);
                  F64.of_Z (-19990)])
              identity_affine (mk_Header (F64.of_Z 10) (F64.of_Z 10)))).
  - exact nan_marker_runs.
  - reflexivity.
Defined.

(** C5. Geometry: the Mapped Volume that [map_to_atlas] returns has the
    shape and the affine of the Labeled Volume (and as many voxels). *)
Theorem map_to_atlas_geometry marker atlas img :
  map_to_atlas marker atlas = Ok img →
  shape (dataobj img) = shape (dataobj atlas)
  ∧ affine img = affine atlas
  ∧ (wf_ndarray (dataobj atlas) → wf_ndarray (dataobj img)).
Proof.
  intros Hrun.
  destruct (map_to_atlas_Ok _ _ _ Hrun)
    as (marker_min & marker_max & arr & _ & _ & _ & Hloop & ->).
  simpl. split; [|split; [done|]].
  - by rewrite (map_rois_shape _ _ _ _ _ Hloop).
  - intros Hwf. unfold wf_ndarray in *. simpl.
    destruct (map_rois_spec _ _ _ _ _ Hloop) as (Hsh & Hlen & _).
    { simpl. by rewrite length_replicate. }
    simpl in Hsh, Hlen. rewrite length_replicate in Hlen.
    rewrite !length_zip_with, !length_fmap, Hsh. lia.
Qed.

(** What the header keeps of a number: 0.1 becomes 13421773 / 2^27, the
    float32 nearest to it; a float32 stays what it is; a number beyond
    the range of float32 becomes infinite. *)
Example F32_round_tenth :
  F32.round tenth = F64.div (F64.of_Z 13421773) (F64.of_Z (2 ^ 27))
  ∧ F32.round (F64.div (F64.of_Z 1) (F64.of_Z 4))
    = F64.div (F64.of_Z 1) (F64.of_Z 4)
  ∧ F32.round (F64.of_Z (2 ^ 200)) = S754_infinity false
  ∧ F32.round (F64.of_Z (- 2 ^ 200)) = S754_infinity true.
Proof. vm_compute. repeat split. Qed.

(** C6, as stated, fails: the marker [0.1, 0.25] has the minimum 0.1,
    which is no float32; [cal_min] is the float32 nearest to it, a number
    above 0.1 and none of the entries of the marker. *)
Lemma display_range_rounded :
  ∃ img,
    map_to_atlas tenth_marker scenario_atlas = Ok img
    ∧ is_minimum tenth (drop_nan tenth_marker)
    ∧ F64.ltb tenth (cal_min (header img)) = true
    ∧ ¬ is_minimum (cal_min (header img)) (drop_nan tenth_marker).
Proof.
  eexists. split; [vm_compute; reflexivity|]. split; [|split].
  - split; [by left|]. intros y Hy.
    apply elem_of_cons in Hy as [->|Hy]; [reflexivity|].
    apply list_elem_of_singleton in Hy as ->. reflexivity.
  - reflexivity.
  - intros [Hin _]. cbn [header cal_min] in Hin.
    apply elem_of_cons in Hin as [Heq|Hin]; [discriminate|].
    apply list_elem_of_singleton in Hin. discriminate.
Qed.

(** C6, amended. Display range: the Mapped Volume that [map_to_atlas]
    returns carries as [cal_min] the float32 nearest to the minimum, and
    as [cal_max] the float32 nearest to the maximum, of the entries of the
    marker that are not NaN, not the sentinel. *)
Theorem map_to_atlas_display_range marker atlas img :
  map_to_atlas marker atlas = Ok img →
  ∃ marker_min marker_max,
    is_minimum marker_min (drop_nan marker)
    ∧ is_maximum marker_max (drop_nan marker)
    ∧ cal_min (header img) = F32.round marker_min
    ∧ cal_max (header img) = F32.round marker_max.
Proof.
  intros Hrun.
  destruct (map_to_atlas_Ok _ _ _ Hrun)
    as (marker_min & marker_max & arr & _ & Hmin & Hmax & _ & ->).
  exists marker_min, marker_max. simpl. split; [|split; [|done]].
  - apply np_min_is_minimum; [apply Forall_drop_nan | done].
  - apply np_max_is_maximum; [apply Forall_drop_nan | done].
Qed.

Lemma map_to_atlas_display_range_witness :
  ∃ marker_min marker_max,
    is_minimum marker_min (drop_nan scenario_marker)
    ∧ is_maximum marker_max (drop_nan scenario_marker)
    ∧ F64.of_Z 10 = F32.round marker_min
    ∧ F64.of_Z 20 = F32.round marker_max.
Proof.
  apply (map_to_atlas_display_range scenario_marker scenario_atlas
           scenario_img).
  exact scenario_runs.
Defined.

Lemma map_to_atlas_geometry_witness :
  shape (dataobj scenario_img) = [2; 2; 1]%nat
  ∧ affine scenario_img = identity_affine
  ∧ (wf_ndarray (dataobj scenario_atlas) → wf_ndarray (dataobj scenario_img)).
Proof.
  apply (map_to_atlas_geometry scenario_marker scenario_atlas scenario_img).
  exact scenario_runs.
Defined.

(** C8, as stated, fails: the marker [-2^70] is finite and not NaN, and
    the voxel of region 1 holds [-2^70], which is also the sentinel
    [-2^70 - 20000] as float64 computes it. *)
Lemma sentinel_collision :
  ∃ img marker_min value,
    map_to_atlas huge_marker huge_atlas = Ok img
    ∧ Forall (λ y, F64.is_finite y = true ∧ F64.valid y = true) huge_marker
    ∧ is_minimum marker_min (drop_nan huge_marker)
    ∧ flat (dataobj huge_atlas) !! 0%nat = Some 1
    ∧ huge_marker !! Z.to_nat (1 - 1) = Some value
    ∧ F64.isnan value = false
    ∧ flat (dataobj img) !! 0%nat = Some (F64.sub marker_min (F64.of_Z 20000))
    ∧ F64.eqb value (F64.sub marker_min (F64.of_Z 20000)) = true.
Proof.
  eexists _, (F64.of_Z (- 2 ^ 70)), (F64.of_Z (- 2 ^ 70)).
  split; [vm_compute; reflexivity|].
  split; [repeat constructor|].
  split.
  { split; [left|]. intros y Hy. apply list_elem_of_singleton in Hy as ->.
    reflexivity. }
  repeat split.
Qed.

(** C8, amended. Sentinel exclusivity: when the sentinel
    [marker_min - 20000], as float64 computes it, is below [marker_min],
    no voxel whose atlas label is not 0 and whose sourced value is not
    NaN holds a value equal to the sentinel. *)
Theorem map_to_atlas_sentinel_exclusive marker atlas img marker_min
    (x : nat) (label : Z) (value : F64.t) :
  map_to_atlas marker atlas = Ok img →
  wf_ndarray (dataobj atlas) →
  np_min (drop_nan marker) = Ok marker_min →
  F64.ltb (F64.sub marker_min (F64.of_Z 20000)) marker_min = true →
  flat (dataobj atlas) !! x = Some label →
  label ≠ 0 →
  np_getitem marker (label - 1) = Ok value →
  F64.isnan value = false →
  flat (dataobj img) !! x = Some value
  ∧ F64.eqb value (F64.sub marker_min (F64.of_Z 20000)) = false
  ∧ value ≠ F64.sub marker_min (F64.of_Z 20000).
Proof.
  intros Hrun Hwf Hmin Hlt Hx Hne Hget Hnan.
  destruct (map_to_atlas_voxel _ _ _ _ _ Hrun Hwf Hx)
    as (marker_min' & Hmin' & _ & Hroi).
  destruct (Hroi Hne) as (value' & Hget' & Hv).
  assert (value' = value) as -> by congruence.
  rewrite Hnan in Hv. split; [done|].
  assert (Hle : F64.leb marker_min value = true).
  { destruct (np_min_is_minimum _ _ (Forall_drop_nan marker) Hmin)
      as [_ Hall].
    apply Hall. apply elem_of_drop_nan. split; [|done].
    by eapply np_getitem_elem_of. }
  assert (Hlt' : F64.ltb (F64.sub marker_min (F64.of_Z 20000)) value = true)
    by by eapply F64_ltb_leb_trans.
  split; [by apply F64_ltb_not_eqb|].
  intros Heq. rewrite <- Heq in Hlt'. by rewrite F64_ltb_irrefl in Hlt'.
Qed.

Lemma map_to_atlas_sentinel_exclusive_witness :
  flat (dataobj scenario_img) !! 0%nat = Some (F64.of_Z 10)
  ∧ F64.eqb (F64.of_Z 10) (F64.sub (F64.of_Z 10) (F64.of_Z 20000)) = false
  ∧ F64.of_Z 10 ≠ F64.sub (F64.of_Z 10) (F64.of_Z 20000).
Proof.
  apply (map_to_atlas_sentinel_exclusive scenario_marker scenario_atlas
           scenario_img (F64.of_Z 10) 0%nat 1 (F64.of_Z 10)).
  - exact scenario_runs.
  - reflexivity.
  - reflexivity.
  - reflexivity.
  - reflexivity.
  - lia.
  - reflexivity.
  - reflexivity.
Defined.

(** The length validation compares the length of the marker with the
    number of distinct labels, 0 included, minus one. *)
Lemma roi_count_ok_spec marker (atlas_array : ndarray Z) :
  roi_count_ok marker atlas_array = true
  ↔ Z.of_nat (n_labels atlas_array) - 1 = Z.of_nat (length marker).
Proof.
  unfold roi_count_ok. rewrite length_np_unique. apply Z.eqb_eq.
Qed.

(** C10. A Labeled Volume without a voxel labeled 0 and with [R] distinct
    labels: the length validation of [map_to_atlas] rejects a marker of
    length [R] with the mismatch error, and lets through exactly the
    markers of length [R - 1]. *)
Theorem roi_count_without_background marker atlas :
  0 ∉ flat (dataobj atlas) →
  (length marker = n_rois (dataobj atlas) →
     map_to_atlas marker atlas = Raise (AssertionError roi_mismatch_msg))
  ∧ (map_to_atlas marker atlas ≠ Raise (AssertionError roi_mismatch_msg)
     ↔ Z.of_nat (length marker) = Z.of_nat (n_rois (dataobj atlas)) - 1).
Proof.
  intros H0. apply n_labels_no_background in H0.
  rewrite <- map_to_atlas_mismatch.
  destruct (roi_count_ok marker (dataobj atlas)) eqn:Hok.
  - apply roi_count_ok_spec in Hok. split; [lia|].
    split; [lia|done].
  - split; [done|]. split; [done|]. intros Hlen. exfalso.
    assert (roi_count_ok marker (dataobj atlas) = true); [|congruence].
    apply roi_count_ok_spec. lia.
Qed.

Lemma roi_count_without_background_witness :
  (length scenario_marker = n_rois (dataobj full_atlas) →
     map_to_atlas scenario_marker full_atlas
     = Raise (AssertionError roi_mismatch_msg))
  ∧ (map_to_atlas scenario_marker full_atlas
       ≠ Raise (AssertionError roi_mismatch_msg)
     ↔ Z.of_nat (length scenario_marker)
       = Z.of_nat (n_rois (dataobj full_atlas)) - 1).
Proof.
  apply (roi_count_without_background scenario_marker full_atlas).
  apply (bool_decide_unpack _). vm_compute. exact I.
Defined.

Example full_atlas_two_numbers :
  map_to_atlas scenario_marker full_atlas
  = Raise (AssertionError roi_mismatch_msg).
Proof. vm_compute. reflexivity. Qed.

(** C4, as stated, fails: the atlas has two distinct nonzero labels and
    no background, the marker has one number; the validation lets the
    marker through and the call fails later, with an [IndexError]. *)
Lemma mismatch_not_detected :
  n_rois (dataobj full_atlas) = 2%nat
  ∧ length [F64.of_Z 10] = 1%nat
  ∧ map_to_atlas [F64.of_Z 10] full_atlas = Raise IndexError
  ∧ map_to_atlas [F64.of_Z 10] full_atlas
    ≠ Raise (AssertionError roi_mismatch_msg).
Proof.
  split; [vm_compute; reflexivity|].
  split; [reflexivity|].
  assert (H : map_to_atlas [F64.of_Z 10] full_atlas = Raise IndexError)
    by (vm_compute; reflexivity).
  split; [exact H|]. rewrite H. discriminate.
Qed.

(** Without a background voxel a mismatch can pass unnoticed altogether
    when a label is negative: numpy counts a negative index from the end
    of the marker. *)
Example negative_label_passes :
  let atlas := mk_Nifti1Image (mk_ndarray [3; 1; 1]%nat [1; 2; -1])
                 identity_affine (mk_Header F64.zero F64.zero) in
  n_rois (dataobj atlas) = 3%nat
  ∧ flat ∘ dataobj <$> map_to_atlas scenario_marker atlas
    = Ok [F64.of_Z 10; F64.of_Z 20; F64.of_Z 10].
Proof. vm_compute. split; reflexivity. Qed.

(** C4, amended. Count mismatch: for a Labeled Volume with at least one
    background voxel whose number of distinct nonzero labels is not the
    length of the marker, [map_to_atlas] fails with the mismatch error, and
    the loop of the driver, reaching that marker, stops with that error
    and writes no file (and makes no directory). *)
Theorem roi_count_mismatch marker atlas (output_folder : Path)
    (markers : DataFrame) (n_total i : nat) (name : string)
    (names : list string) (w : World) :
  0 ∈ flat (dataobj atlas) →
  n_rois (dataobj atlas) ≠ length marker →
  df_getitem markers name = Ok marker →
  map_to_atlas marker atlas = Raise (AssertionError roi_mismatch_msg)
  ∧ (write_markers output_folder atlas markers n_total i (name :: names) w).2
    = Raise (AssertionError roi_mismatch_msg)
  ∧ written (write_markers output_folder atlas markers n_total i
               (name :: names) w).1 = written w
  ∧ dirs (write_markers output_folder atlas markers n_total i
            (name :: names) w).1 = dirs w.
Proof.
  intros H0 Hne Hcol.
  assert (Hfail : map_to_atlas marker atlas
                  = Raise (AssertionError roi_mismatch_msg)).
  { apply map_to_atlas_mismatch.
    destruct (roi_count_ok marker (dataobj atlas)) eqn:Hok; [|done].
    apply roi_count_ok_spec in Hok.
    rewrite (n_labels_background _ H0) in Hok. lia. }
  split; [done|].
  simpl. unfold write_marker, mbind, IO_bind, print, lift.
  rewrite Hcol, Hfail. simpl. done.
Qed.

Lemma roi_count_mismatch_witness :
  map_to_atlas [F64.of_Z 10] scenario_atlas
  = Raise (AssertionError roi_mismatch_msg)
  ∧ (write_markers ["out"; "m"] scenario_atlas [("A", [F64.of_Z 10])] 1 0
       ["A"] scenario_world).2
    = Raise (AssertionError roi_mismatch_msg)
  ∧ written (write_markers ["out"; "m"] scenario_atlas
               [("A", [F64.of_Z 10])] 1 0 ["A"] scenario_world).1
    = written scenario_world
  ∧ dirs (write_markers ["out"; "m"] scenario_atlas [("A", [F64.of_Z 10])]
            1 0 ["A"] scenario_world).1 = dirs scenario_world.
Proof.
  apply (roi_count_mismatch [F64.of_Z 10] scenario_atlas ["out"; "m"]
           [("A", [F64.of_Z 10])] 1 0 "A" [] scenario_world).
  - apply (bool_decide_unpack _). vm_compute. exact I.
  - vm_compute. discriminate.
  - reflexivity.
Defined.
End mapper_claims.

(* ===================================================================== *)
(** * The Marker Reader *)
(* ===================================================================== *)

Section reader_claims.
Variable np_loadtxt : string → result (list F64.t).
Variable pd_read_csv : string → string → result DataFrame.

Lemma ext_ok_spec (ext : string) :
  ext_ok ext = true ↔ ext = ".csv" ∨ ext = ".tsv".
Proof.
  unfold ext_ok. rewrite bool_decide_eq_true, !elem_of_cons, elem_of_nil.
  tauto.
Qed.

(** [read_markers] is its assertion followed by the dispatch. *)
Lemma read_markers_eq (markers_path : string) :
  read_markers np_loadtxt pd_read_csv markers_path
  = (_ ← py_assert (ext_ok (os_path_splitext markers_path).2)
           marker_format_msg;
     load_markers np_loadtxt pd_read_csv markers_path
       (os_path_split markers_path).2 (os_path_splitext markers_path).2).
Proof.
  unfold read_markers.
  destruct (os_path_split markers_path), (os_path_splitext markers_path).
  reflexivity.
Qed.

(** The paths the assertion lets through are those with the extension
    [.csv] or [.tsv]. *)
Lemma read_markers_accepts (markers_path : string) :
  read_markers np_loadtxt pd_read_csv markers_path
  = load_markers np_loadtxt pd_read_csv markers_path
      (os_path_split markers_path).2 (os_path_splitext markers_path).2
  ∧ ((os_path_splitext markers_path).2 = ".csv"
     ∨ (os_path_splitext markers_path).2 = ".tsv")
  ∨ read_markers np_loadtxt pd_read_csv markers_path
    = Raise (AssertionError marker_format_msg)
    ∧ ¬ ((os_path_splitext markers_path).2 = ".csv"
         ∨ (os_path_splitext markers_path).2 = ".tsv").
Proof.
  rewrite read_markers_eq, <- ext_ok_spec. unfold py_assert.
  destruct (ext_ok _); simpl; [left|right]; split; auto.
Qed.

(** C3, on the code. A path with the extension [.txt], which the assertion
    message and the docstring of [read_markers] list as supported, is
    rejected by the assertion: the list that the extension is checked
    against holds [.csv] twice and [.txt] not at all. *)
Theorem read_markers_txt_rejected (markers_path : string) :
  (os_path_splitext markers_path).2 = ".txt" →
  read_markers np_loadtxt pd_read_csv markers_path
  = Raise (AssertionError marker_format_msg).
Proof.
  intros Hext. destruct (read_markers_accepts markers_path)
    as [[_ [H|H]]|[H _]]; [| |done]; rewrite Hext in H; discriminate.
Qed.

(** C7, on the code. For a path with the extension [.txt], the
    single-column plain-text format, [read_markers] returns no table at
    all, whatever numbers the file holds: the call ends in the assertion
    error of the extension check, and the branch that would build the
    one-column table is never reached. *)
Theorem read_markers_txt_no_table (markers_path : string) :
  (os_path_splitext markers_path).2 = ".txt" →
  (∀ marker : DataFrame,
     read_markers np_loadtxt pd_read_csv markers_path ≠ Ok marker)
  ∧ ∃ e, read_markers np_loadtxt pd_read_csv markers_path = Raise e.
Proof.
  intros Hext.
  assert (Hno : ext_ok (os_path_splitext markers_path).2 = false)
    by (by rewrite Hext).
  rewrite read_markers_eq, Hno. split; [done|]. by eexists.
Qed.
End reader_claims.

Lemma read_markers_txt_rejected_witness :
  read_markers loadtxt_five read_csv_two "data/thickness.txt"
  = Raise (AssertionError marker_format_msg).
Proof.
  apply (read_markers_txt_rejected loadtxt_five read_csv_two
           "data/thickness.txt").
  reflexivity.
Defined.

Lemma read_markers_txt_no_table_witness :
  (∀ marker : DataFrame,
     read_markers loadtxt_five read_csv_two "data/thickness.txt" ≠ Ok marker)
  ∧ ∃ e, read_markers loadtxt_five read_csv_two "data/thickness.txt"
         = Raise e.
Proof.
  apply (read_markers_txt_no_table loadtxt_five read_csv_two
           "data/thickness.txt").
  reflexivity.
Defined.

(** The comma- and tab-separated branch hands the path to the table
    reader with the separator of the extension. *)
Example read_markers_csv :
  read_markers loadtxt_five read_csv_two "data/markers.csv"
  = read_csv_two "data/markers.csv" ",".
Proof. reflexivity. Qed.

(* ===================================================================== *)
(** * Base names and extensions, as the specification has them *)
(* ===================================================================== *)

Section name_facts.
Local Open Scope Z_scope.

Lemma rfind_from_lower (c : ascii) (s : string) (i last : Z) :
  has_char c s = true → i ≤ rfind_from c s i last.
Proof.
  intros H. destruct (rfind_from_spec c s i last) as [[_ Hno]|[Hle _]];
    [congruence|done].
Qed.

Lemma base_name_no_sep (s : string) :
  has_char "/" s = false → base_name s = s.
Proof.
  destruct s as [|a s]; [done|]. simpl. intros H. by rewrite H.
Qed.

Lemma str_drop_base_name (s : string) (i last : Z) :
  has_char "/" s = true →
  str_drop (Z.to_nat (rfind_from "/" s i last - i + 1)) s = base_name s.
Proof.
  revert i last. induction s as [|a s IH]; intros i last; [done|].
  intros Hhas. simpl rfind_from. simpl base_name.
  destruct (has_char "/" s) eqn:Hs.
  - rewrite orb_true_r.
    pose proof (rfind_from_lower "/" s (i + 1)
                  (if Ascii.eqb a "/" then i else last) Hs) as Hle.
    rewrite <- (IH (i + 1) (if Ascii.eqb a "/" then i else last) eq_refl).
    set (r := rfind_from "/" s (i + 1) _) in *.
    replace (Z.to_nat (r - i + 1)) with (S (Z.to_nat (r - (i + 1) + 1)))
      by lia.
    done.
  - simpl in Hhas. rewrite Hs, orb_false_r in Hhas. rewrite Hhas.
    rewrite (rfind_from_absent _ _ _ _ Hs). cbn [orb].
    replace (Z.to_nat (i - i + 1)) with 1%nat by lia.
    simpl. by rewrite base_name_no_sep.
Qed.

(** The base name that [os.path.split] gives is what follows the last
    slash. *)
Lemma os_path_split_base_name (p : string) :
  (os_path_split p).2 = base_name p.
Proof.
  rewrite os_path_split_tail. unfold rfind.
  destruct (has_char "/" p) eqn:Hhas.
  - rewrite <- (str_drop_base_name p 0 (-1) Hhas). f_equal. lia.
  - rewrite (rfind_from_absent _ _ _ _ Hhas). simpl.
    by rewrite base_name_no_sep.
Qed.

Lemma rfind_cons_present (c a : ascii) (s : string) :
  has_char c s = true → rfind c (String a s) = rfind c s + 1.
Proof.
  intros Hhas. unfold rfind. simpl rfind_from.
  rewrite (rfind_from_present c s _ _ (-1 + 1) Hhas).
  by rewrite <- (rfind_from_shift c s 0 (-1) 1).
Qed.

Lemma rfind_cons_absent (c a : ascii) (s : string) :
  has_char c s = false →
  rfind c (String a s) = if Ascii.eqb a c then 0 else -1.
Proof.
  intros Hhas. unfold rfind. simpl rfind_from.
  by rewrite (rfind_from_absent _ _ _ _ Hhas).
Qed.

Lemma rfind_absent (c : ascii) (s : string) :
  has_char c s = false → rfind c s = -1.
Proof. intros H. unfold rfind. by apply rfind_from_absent. Qed.

Lemma cut_last_dot_spec (s : string) :
  cut_last_dot s
  = if has_char "." s then Some (substring 0 (Z.to_nat (rfind "." s)) s)
    else None.
Proof.
  induction s as [|a s IH]; [done|].
  simpl cut_last_dot. simpl has_char. rewrite IH.
  destruct (has_char "." s) eqn:Hs.
  - rewrite orb_true_r, (rfind_cons_present _ _ _ Hs).
    pose proof (rfind_present_nonneg _ _ Hs).
    replace (Z.to_nat (rfind "." s + 1)) with (S (Z.to_nat (rfind "." s)))
      by lia.
    done.
  - rewrite orb_false_r, (rfind_cons_absent _ _ _ Hs).
    by destruct (Ascii.eqb a ".").
Qed.

Lemma has_non_dot_S (p : string) (i n : nat) :
  has_non_dot p i (S n)
  = match String.get i p with
    | Some a => if Ascii.eqb a "." then has_non_dot p (S i) n else true
    | None => true
    end.
Proof.
  simpl. destruct (String.get i p) as [a|]; [|done].
  by destruct a as [[] [] [] [] [] [] [] []].
Qed.

Lemma strip_extension_cons (a : ascii) (s : string) :
  strip_extension (String a s)
  = if Ascii.eqb a "." then String a (strip_extension s)
    else default (String a s) (cut_last_dot (String a s)).
Proof. reflexivity. Qed.

(** The name that [os.path.splitext] leaves of a name without a slash
    is the name with its extension stripped. *)
Lemma os_path_splitext_strip (s : string) :
  has_char "/" s = false → (os_path_splitext s).1 = strip_extension s.
Proof.
  intros Hsep. unfold os_path_splitext. rewrite (rfind_absent _ _ Hsep).
  clear Hsep. replace (Z.to_nat (-1 + 1)) with 0%nat by lia.
  induction s as [|a s IH]; [done|].
  rewrite strip_extension_cons.
  destruct (has_char "." s) eqn:Hs.
  - rewrite (rfind_cons_present _ _ _ Hs).
    pose proof (rfind_present_nonneg _ _ Hs) as Hnn.
    destruct (Z.ltb_spec (-1) (rfind "." s + 1)) as [_|]; [|lia].
    destruct (Z.ltb_spec (-1) (rfind "." s)) as [_|]; [|lia].
    cbn [andb] in IH |- *.
    replace (Z.to_nat (rfind "." s + 1 - (-1 + 1)))
      with (S (Z.to_nat (rfind "." s))) by lia.
    replace (Z.to_nat (rfind "." s - (-1 + 1)))
      with (Z.to_nat (rfind "." s)) in IH by lia.
    rewrite has_non_dot_S. cbn [String.get].
    unfold slice_to in *.
    replace (Z.to_nat (rfind "." s + 1)) with (S (Z.to_nat (rfind "." s)))
      by lia.
    destruct (Ascii.eqb a ".") eqn:Ha.
    + rewrite <- IH.
      rewrite (has_non_dot_str_drop (String a s) 1 0). simpl str_drop.
      by destruct (has_non_dot s 0 _).
    + rewrite cut_last_dot_spec. simpl has_char. rewrite Ha, Hs.
      rewrite (rfind_cons_present _ _ _ Hs). cbn [orb fst default].
      by replace (Z.to_nat (rfind "." s + 1))
        with (S (Z.to_nat (rfind "." s))) by lia.
  - rewrite (rfind_cons_absent _ _ _ Hs).
    rewrite (rfind_absent _ _ Hs) in IH. cbn [Z.ltb Z.compare andb fst] in IH.
    destruct (Ascii.eqb a ".") eqn:Ha.
    + rewrite <- IH. done.
    + rewrite cut_last_dot_spec. simpl has_char. by rewrite Ha, Hs.
Qed.

(** The name of the output directory, in the words of the
    specification. *)
Lemma run_name_spec (marker_file : string) :
  run_name marker_file = strip_extension (base_name marker_file).
Proof.
  unfold run_name. rewrite os_path_splitext_strip.
  - by rewrite os_path_split_base_name.
  - apply os_path_split_tail_no_sep.
Qed.

Lemma run_name_no_sep (marker_file : string) :
  has_char "/" (run_name marker_file) = false.
Proof.
  apply os_path_splitext_root_no_sep, os_path_split_tail_no_sep.
Qed.
End name_facts.

(** The library functions on some paths. *)
Example os_path_examples :
  os_path_split "data/study/thickness.csv" = ("data/study", "thickness.csv")
  ∧ os_path_split "/thickness.csv" = ("/", "thickness.csv")
  ∧ os_path_split "data//" = ("data", "")
  ∧ os_path_split "thickness.csv" = ("", "thickness.csv")
  ∧ os_path_splitext "thickness.v2.csv" = ("thickness.v2", ".csv")
  ∧ os_path_splitext ".csv" = (".csv", "")
  ∧ os_path_splitext "..a.b" = ("..a", ".b")
  ∧ os_path_splitext "a." = ("a", ".")
  ∧ os_path_splitext "data.d/thickness" = ("data.d/thickness", "").
Proof. repeat split. Qed.

Example strip_extension_examples :
  strip_extension (base_name "data/study/thickness.v2.csv") = "thickness.v2"
  ∧ strip_extension (base_name "data/.csv") = ".csv"
  ∧ strip_extension (base_name "thickness") = "thickness"
  ∧ strip_extension (base_name "data.d/") = ""
  ∧ strip_extension (base_name "data/..") = "..".
Proof. repeat split. Qed.

Example Path_examples :
  Path_of_str "//a/./b//c/../d/" = ["//"; "a"; "b"; "c"; ".."; "d"]
  ∧ Path_of_str "///a" = ["/"; "a"]
  ∧ Path_of_str "/a" = ["/"; "a"]
  ∧ Path_of_str "" = []
  ∧ Path_of_str "./" = []
  ∧ truediv ["out"] "markers" = ["out"; "markers"]
  ∧ truediv ["out"] "" = ["out"]
  ∧ truediv ["out"] "a/../b.nii.gz" = ["out"; "a"; ".."; "b.nii.gz"]
  ∧ truediv ["out"] "/tmp/x.nii.gz" = ["/"; "tmp"; "x.nii.gz"].
Proof. repeat split. Qed.

(* ===================================================================== *)
(** * Path resolution *)
(* ===================================================================== *)

(** Paths in the world of the scenario, where the process works in
    [/work] and [out] holds the directory [m], and in the world where
    [out] holds the regular file [thickness]. *)
Example locate_examples :
  locate scenario_world ["out"; "m"; "A.nii.gz"]
  = Ok ["work"; "out"; "m"; "A.nii.gz"]
  ∧ locate scenario_world ["out"; "m"; ".."; "x.nii.gz"]
    = Ok ["work"; "out"; "x.nii.gz"]
  ∧ locate scenario_world ["out"; "a"; "x.nii.gz"] = Raise (OSError ENOENT)
  ∧ locate scenario_world ["/"; "work"; "out"] = Ok ["work"; "out"]
  ∧ locate scenario_world ["//"; ".."; "work"] = Ok ["work"]
  ∧ locate scenario_world [] = Ok ["work"]
  ∧ locate occupied_world ["out"; "thickness"; "x"]
    = Raise (OSError ENOTDIR)
  ∧ locate scenario_world ["out"; String "000"%char "x"] = Raise ValueError
  ∧ isdir scenario_world ["out"; "m"] = true
  ∧ isdir occupied_world ["out"; "thickness"] = false
  ∧ isdir_str scenario_world "out/m/../" = true
  ∧ isdir_str scenario_world "" = false.
Proof. vm_compute. repeat split. Qed.

Section fs_facts.
Implicit Types (w : World) (loc cur : Location) (p : Path).

Lemma enter_Ok w cur (u : unit) :
  enter w cur = Ok u → is_directory w cur = true.
Proof. unfold enter. destruct (is_directory w cur); [done|]. by case_match. Qed.

Lemma enter_directory w cur :
  is_directory w cur = true → enter w cur = Ok tt.
Proof. unfold enter. by intros ->. Qed.

Lemma walk_app w cur (ps qs : list string) :
  walk w cur (ps ++ qs)%list = loc ← walk w cur ps; walk w loc qs.
Proof.
  revert cur. induction ps as [|q ps IH]; intros cur; [done|].
  simpl. destruct (enter w cur); simpl; [apply IH|done].
Qed.

(** A path that resolves keeps its place when directories are added. *)
Lemma walk_Ok_mono w w' cur (ps : list string) loc :
  (∀ l, is_directory w l = true → is_directory w' l = true) →
  walk w cur ps = Ok loc → walk w' cur ps = Ok loc.
Proof.
  intros Hmono. revert cur. induction ps as [|q ps IH]; intros cur; [done|].
  simpl. destruct (enter w cur) as [[]|e] eqn:Hcur; simpl; [|done].
  rewrite (enter_directory w' cur) by (eapply Hmono, enter_Ok, Hcur).
  apply IH.
Qed.

Lemma locate_Ok_mono w w' p loc :
  cwd w' = cwd w →
  (∀ l, is_directory w l = true → is_directory w' l = true) →
  locate w p = Ok loc → locate w' p = Ok loc.
Proof.
  intros Hcwd Hmono. unfold locate. rewrite Hcwd.
  destruct (existsb _ p); [done|].
  destruct p as [|r parts]; [done|].
  destruct (is_root r); by apply walk_Ok_mono.
Qed.

Lemma isdir_true w p :
  isdir w p = true ↔ ∃ loc, locate w p = Ok loc ∧ is_directory w loc = true.
Proof.
  unfold isdir. split.
  - destruct (locate w p) as [loc|e]; [|done]. intros H. by exists loc.
  - by intros (loc & -> & H).
Qed.

Lemma isdir_mono w w' p :
  cwd w' = cwd w →
  (∀ l, is_directory w l = true → is_directory w' l = true) →
  isdir w p = true → isdir w' p = true.
Proof.
  intros Hcwd Hmono. rewrite !isdir_true. intros (loc & Hloc & Hdir).
  exists loc. split; [by eapply locate_Ok_mono | by apply Hmono].
Qed.

Lemma isdir_str_mono w w' (s : string) :
  cwd w' = cwd w →
  (∀ l, is_directory w l = true → is_directory w' l = true) →
  isdir_str w s = true → isdir_str w' s = true.
Proof.
  intros Hcwd Hmono. unfold isdir_str. rewrite !andb_true_iff.
  intros [Hne Hdir]. split; [done|]. by eapply isdir_mono.
Qed.

Lemma is_directory_with_directory w loc l :
  is_directory (with_directory w loc) l
  = is_directory w l || bool_decide (l = loc).
Proof.
  unfold is_directory, with_directory. cbn [dirs].
  apply eq_true_iff_eq.
  rewrite orb_true_iff, !bool_decide_eq_true, elem_of_union,
    elem_of_singleton.
  tauto.
Qed.

Lemma with_directory_mono w loc l :
  is_directory w l = true → is_directory (with_directory w loc) l = true.
Proof. intros H. by rewrite is_directory_with_directory, H. Qed.

Lemma is_root_no_sep (s : string) :
  has_char "/" s = false → is_root s = false.
Proof.
  destruct s as [|a s]; [done|]. simpl. intros H.
  apply orb_false_iff in H as [Ha _]. unfold is_root. simpl.
  by rewrite Ha.
Qed.

(** The place of a path with one more part. *)
Lemma locate_snoc w p (q : string) :
  has_char "000"%char q = false → is_root q = false →
  locate w (p ++ [q])%list = loc ← locate w p; _ ← enter w loc; Ok (step loc q).
Proof.
  intros Hnull Hroot. unfold locate.
  rewrite existsb_app. simpl existsb. rewrite Hnull, !orb_false_r.
  destruct (existsb _ p); [done|].
  destruct p as [|r parts].
  - simpl. rewrite Hroot. simpl. by destruct (enter w (cwd w)).
  - rewrite <- app_comm_cons. destruct (is_root r).
    + rewrite walk_app. by destruct (walk w [] parts).
    + rewrite app_comm_cons, walk_app. by destruct (walk w (cwd w) _).
Qed.

Lemma step_part cur (q : string) :
  is_part q = true → String.eqb q ".." = false → step cur q = (cur ++ [q])%list.
Proof. intros Hpart Hup. unfold step. by rewrite Hup, Hpart. Qed.

(** The place of an entry with a name of its own in a directory. *)
Lemma locate_entry w p (q : string) loc :
  locate w p = Ok loc → is_directory w loc = true →
  has_char "/" q = false → has_char "000"%char q = false →
  is_part q = true → String.eqb q ".." = false →
  locate w (p ++ [q])%list = Ok (loc ++ [q])%list.
Proof.
  intros Hloc Hdir Hsep Hnull Hpart Hup.
  rewrite locate_snoc by (by try apply is_root_no_sep).
  rewrite Hloc. simpl. rewrite (enter_directory _ _ Hdir). simpl.
  by rewrite step_part.
Qed.
End fs_facts.

(* ===================================================================== *)
(** * What prepare_output does *)
(* ===================================================================== *)

Section prepare_output_facts.
Implicit Types (w : World) (loc : Location).

Lemma os_mkdir_cases (p : Path) w :
  (∃ loc, locate w p = Ok loc
     ∧ is_directory w loc = false ∧ is_file w loc = false
     ∧ os_mkdir p w = (with_directory w loc, Ok tt))
  ∨ (∃ e, os_mkdir p w = (w, Raise e)).
Proof.
  unfold os_mkdir. destruct (locate w p) as [loc|e]; [|right; by eexists].
  destruct (is_directory w loc) eqn:Hdir; [right; by eexists|].
  destruct (is_file w loc) eqn:Hfile; [right; by eexists|].
  left. by exists loc.
Qed.

Lemma prepare_output_eq (out_folder marker_file : string) w :
  prepare_output out_folder marker_file w
  = if isdir_str w out_folder then
      let output_folder :=
        truediv (Path_of_str out_folder) (run_name marker_file) in
      if isdir w output_folder then (w, Ok output_folder)
      else
        match os_mkdir output_folder w with
        | (w', Ok _) => (w', Ok output_folder)
        | (w', Raise e) => (w', Raise e)
        end
    else (w, Raise (FileNotFoundError
                      (out_folder ++ " is not an existing directory!"))).
Proof.
  unfold prepare_output, run_name.
  destruct (os_path_split marker_file) as [hd tail]. cbn [fst snd].
  destruct (os_path_splitext tail) as [file_name ext]. cbn [fst snd].
  unfold mbind, IO_bind, os_path_isdir_str, os_path_isdir, raise,
    mret, IO_ret.
  destruct (isdir_str w out_folder); cbn [negb]; [|done].
  cbn zeta.
  destruct (isdir w (truediv (Path_of_str out_folder) file_name)) eqn:Hdir;
    cbn [negb]; [done|].
  by destruct (os_mkdir _ w) as [w' [[]|e]].
Qed.

(** The four ways of [prepare_output]: no [out_folder]; the output
    directory is there; it is made; it cannot be made. *)
Lemma prepare_output_cases (out_folder marker_file : string) w :
  let output_folder :=
    truediv (Path_of_str out_folder) (run_name marker_file) in
  (isdir_str w out_folder = false
   ∧ prepare_output out_folder marker_file w
     = (w, Raise (FileNotFoundError
                    (out_folder ++ " is not an existing directory!"))))
  ∨ (isdir_str w out_folder = true ∧ isdir w output_folder = true
     ∧ prepare_output out_folder marker_file w = (w, Ok output_folder))
  ∨ (isdir_str w out_folder = true ∧ isdir w output_folder = false
     ∧ ∃ loc, locate w output_folder = Ok loc
         ∧ is_directory w loc = false ∧ is_file w loc = false
         ∧ prepare_output out_folder marker_file w
           = (with_directory w loc, Ok output_folder))
  ∨ (isdir_str w out_folder = true ∧ isdir w output_folder = false
     ∧ ∃ e, prepare_output out_folder marker_file w = (w, Raise e)).
Proof.
  intros output_folder. rewrite prepare_output_eq. fold output_folder.
  destruct (isdir_str w out_folder); [|by left]. right. cbn zeta.
  destruct (isdir w output_folder); [by left|]. right.
  destruct (os_mkdir_cases output_folder w)
    as [(loc & Hloc & Hdir & Hfile & ->)|(e & ->)].
  - left. do 2 (split; [done|]). by exists loc.
  - right. do 2 (split; [done|]). by exists e.
Qed.

(** A directory that has just been made is a directory. *)
Lemma isdir_with_directory (p : Path) w loc :
  locate w p = Ok loc → isdir (with_directory w loc) p = true.
Proof.
  intros Hloc. apply isdir_true. exists loc. split.
  - apply (locate_Ok_mono w); [done| |done].
    intros l. apply with_directory_mono.
  - rewrite is_directory_with_directory, bool_decide_eq_true_2 by done.
    apply orb_true_r.
Qed.

(** What [prepare_output] returns is a directory afterwards, and the
    world is the one before, with one more directory at most. *)
Lemma prepare_output_Ok (out_folder marker_file : string) w w1
    (output_folder : Path) :
  prepare_output out_folder marker_file w = (w1, Ok output_folder) →
  output_folder = truediv (Path_of_str out_folder) (run_name marker_file)
  ∧ isdir w1 output_folder = true
  ∧ (w1 = w
     ∨ ∃ loc, locate w output_folder = Ok loc
         ∧ is_directory w loc = false ∧ is_file w loc = false
         ∧ w1 = with_directory w loc).
Proof.
  destruct (prepare_output_cases out_folder marker_file w)
    as [[_ ->]|[(_ & Hdir & ->)|[(_ & _ & loc & Hloc & Hd & Hf & ->)
                                 |(_ & _ & e & ->)]]];
    intros [= <- <-]; (split; [done|]).
  - split; [done|]. by left.
  - split; [by apply isdir_with_directory|]. right. by exists loc.
Qed.

(** Whatever [prepare_output] does, it leaves the working directory, the
    regular files, the images and the console alone, and removes no
    directory. *)
Lemma prepare_output_world (out_folder marker_file : string) w :
  (prepare_output out_folder marker_file w).1 = w
  ∨ ∃ loc,
      locate w (truediv (Path_of_str out_folder) (run_name marker_file))
      = Ok loc
      ∧ is_directory w loc = false ∧ is_file w loc = false
      ∧ (prepare_output out_folder marker_file w).1 = with_directory w loc.
Proof.
  destruct (prepare_output_cases out_folder marker_file w)
    as [[_ ->]|[(_ & Hdir & ->)|[(_ & _ & loc & Hloc & Hd & Hf & ->)
                                 |(_ & _ & e & ->)]]];
    [by left|by left| |by left].
  right. by exists loc.
Qed.
End prepare_output_facts.

(* ===================================================================== *)
(** * The Output Writer *)
(* ===================================================================== *)

(** C9, as stated, fails: [out] is an existing directory, and a regular
    file named [thickness] stands in it. For the marker file
    [data/thickness.csv] no subdirectory is returned and none is made:
    [os.mkdir] fails with [FileExistsError]. *)
Lemma subdirectory_not_made :
  isdir_str occupied_world "out" = true
  ∧ strip_extension (base_name "data/thickness.csv") = "thickness"
  ∧ is_file occupied_world ["work"; "out"; "thickness"] = true
  ∧ prepare_output "out" "data/thickness.csv" occupied_world
    = (occupied_world, Raise (OSError EEXIST)).
Proof. vm_compute. repeat split. Qed.

(** C9, amended. [prepare_output] fails with [FileNotFoundError] and
    changes nothing when [out_folder] is not an existing directory. When
    it is one, let [name] be the base name of the marker file with the
    extension stripped. If [name] is empty or a single dot,
    [out_folder] itself is returned. If [name] is a proper name, the
    result is decided by what stands in [out_folder] under [name]: a
    directory is returned as it is; a regular file makes the call fail
    with [FileExistsError]; otherwise the directory is made and
    returned. What is returned is the path of [out_folder] with [name]
    as one more part, and it is a directory afterwards. *)
Theorem prepare_output_subdirectory (out_folder marker_file : string)
    (w : World) (here : Location) :
  let name := strip_extension (base_name marker_file) in
  (isdir_str w out_folder = false →
     prepare_output out_folder marker_file w
     = (w, Raise (FileNotFoundError
                    (out_folder ++ " is not an existing directory!"))))
  ∧ (isdir_str w out_folder = true →
     is_part name = false →
     prepare_output out_folder marker_file w
     = (w, Ok (Path_of_str out_folder)))
  ∧ (isdir_str w out_folder = true →
     locate w (Path_of_str out_folder) = Ok here →
     proper_name name = true →
     let output_folder := (Path_of_str out_folder ++ [name])%list in
     let there := (here ++ [name])%list in
     prepare_output out_folder marker_file w
     = (if is_directory w there then (w, Ok output_folder)
        else if is_file w there then (w, Raise (OSError EEXIST))
        else (with_directory w there, Ok output_folder))
     ∧ locate w output_folder = Ok there
     ∧ (is_directory w there = true ∨ is_file w there = false →
        isdir (prepare_output out_folder marker_file w).1 output_folder
        = true)).
Proof.
  intros name.
  assert (Hname : run_name marker_file = name) by apply run_name_spec.
  assert (Hsep : has_char "/" name = false).
  { rewrite <- Hname. apply run_name_no_sep. }
  split; [|split].
  - intros Hout. by rewrite prepare_output_eq, Hout.
  - intros Hout Hpart. rewrite prepare_output_eq, Hout, Hname. cbn zeta.
    rewrite (truediv_no_sep _ _ Hsep), Hpart, app_nil_r.
    unfold isdir_str in Hout. apply andb_true_iff in Hout as [_ ->]. done.
  - intros Hout Hhere Hproper output_folder there.
    unfold proper_name in Hproper.
    apply andb_true_iff in Hproper as [Hproper Hnull].
    apply andb_true_iff in Hproper as [Hpart Hup].
    apply negb_true_iff in Hnull, Hup.
    assert (Hdir : is_directory w here = true).
    { unfold isdir_str in Hout. apply andb_true_iff in Hout as [_ Hout].
      apply isdir_true in Hout as (loc & Hloc & Hdir). congruence. }
    assert (Hthere : locate w output_folder = Ok there)
      by (by apply locate_entry).
    assert (Hrun : prepare_output out_folder marker_file w
              = (if is_directory w there then (w, Ok output_folder)
                 else if is_file w there then (w, Raise (OSError EEXIST))
                 else (with_directory w there, Ok output_folder))).
    { rewrite prepare_output_eq, Hout, Hname. cbn zeta.
      rewrite (truediv_name _ _ Hsep Hpart). fold output_folder.
      unfold isdir at 1, os_mkdir. rewrite Hthere.
      destruct (is_directory w there); [done|]. cbn [orb].
      by destruct (is_file w there). }
    split; [done|]. split; [done|]. rewrite Hrun.
    destruct (is_directory w there) eqn:Hd.
    + intros _. cbn [fst]. apply isdir_true. by exists there.
    + intros [|Hf]; [done|]. rewrite Hf. cbn [fst].
      by apply isdir_with_directory.
Qed.

Lemma prepare_output_subdirectory_witness :
  prepare_output "nowhere" "data/thickness.txt" output_world
  = (output_world,
     Raise (FileNotFoundError "nowhere is not an existing directory!"))
  ∧ prepare_output "out" "data/thickness.txt" output_world
    = (with_directory output_world ["work"; "out"; "thickness"],
       Ok ["out"; "thickness"])
  ∧ isdir (prepare_output "out" "data/thickness.txt" output_world).1
      ["out"; "thickness"] = true.
Proof.
  split.
  - apply (proj1 (prepare_output_subdirectory "nowhere" "data/thickness.txt"
                    output_world [])).
    reflexivity.
  - destruct (proj2 (proj2 (prepare_output_subdirectory "out"
                              "data/thickness.txt" output_world
                              ["work"; "out"]))
                eq_refl eq_refl eq_refl) as (Hrun & _ & Hdir).
    split; [exact Hrun|]. apply Hdir. right. reflexivity.
Defined.

(** The same call in the world where the name is taken by a regular
    file, and a marker file without a name: [out] itself is returned. *)
Example prepare_output_occupied :
  prepare_output "out" "data/thickness.txt" occupied_world
  = (occupied_world, Raise (OSError EEXIST)).
Proof. vm_compute. reflexivity. Qed.

Example prepare_output_no_name :
  prepare_output "out" "data/" output_world = (output_world, Ok ["out"]).
Proof. vm_compute. reflexivity. Qed.

(* ===================================================================== *)
(** * The Driver *)
(* ===================================================================== *)

(** A run of [main] on the scenario: the output directory is made, one
    image per column is written under the name of the column, and the
    progress is printed before each marker. *)
Example main_scenario :
  let run := main loadtxt_five read_csv_two load_scenario_atlas scenario_args
               output_world in
  run.2 = Ok tt
  ∧ isdir run.1 ["out"; "markers"] = true
  ∧ written run.1 !! ["work"; "out"; "markers"; "A.nii.gz"]
    = Some scenario_img
  ∧ dataobj <$> written run.1 !! ["work"; "out"; "markers"; "B.nii.gz"]
    = Some (mk_ndarray [2; 2; 1]%nat
              [F64.of_Z 1; F64.of_Z (-19999); F64.of_Z (-19999);
               F64.of_Z (-19999)])
  ∧ size (written run.1) = 2%nat
  ∧ stdout run.1 = ["Marker 0/2"; "Marker 1/2"].
Proof. vm_compute. repeat split. Qed.

(** A run on a plain-text marker file stops at the assertion of
    [read_markers], after the output directory has been made. *)
Example main_plain_text :
  let run := main loadtxt_five read_csv_two load_scenario_atlas
               (mk_Args "data/thickness.txt" "atlas.nii.gz" "out")
               output_world in
  run.2 = Raise (AssertionError marker_format_msg)
  ∧ isdir run.1 ["out"; "thickness"] = true
  ∧ written run.1 = ∅.
Proof. vm_compute. repeat split. Qed.

(** A column whose name holds a slash names a file in a directory below
    the output directory; when that directory is not there the run stops
    at this column, after the image of the column before it has been
    written. *)
Example main_nested_column :
  let run := main loadtxt_five read_csv_nested load_scenario_atlas
               scenario_args output_world in
  run.2 = Raise (OSError ENOENT)
  ∧ written run.1 !! ["work"; "out"; "markers"; "A.nii.gz"]
    = Some scenario_img
  ∧ size (written run.1) = 1%nat
  ∧ stdout run.1 = ["Marker 0/3"; "Marker 1/3"].
Proof. vm_compute. repeat split. Qed.

(** Two columns can name the same file, by way of [..]: the image of the
    later column replaces the image of the earlier one. *)
Example main_aliased_columns :
  let run := main loadtxt_five read_csv_aliased load_scenario_atlas
               scenario_args output_world in
  run.2 = Ok tt
  ∧ image_path ["out"; "markers"] "x" ≠ image_path ["out"; "markers"] "../markers/x"
  ∧ dataobj <$> written run.1 !! ["work"; "out"; "markers"; "x.nii.gz"]
    = Some (mk_ndarray [2; 2; 1]%nat
              [F64.of_Z 1; F64.of_Z 2; F64.of_Z (-19999); F64.of_Z (-19999)])
  ∧ size (written run.1) = 1%nat.
Proof. vm_compute. repeat split. discriminate. Qed.

(* ===================================================================== *)
(** * The subtraction of float64 *)
(* ===================================================================== *)

Section F64_sub.
Local Open Scope Z_scope.

Lemma shr_1_nonneg (mrs : shr_record) : 0 ≤ shr_m mrs → 0 ≤ shr_m (shr_1 mrs).
Proof.
  destruct mrs as [m r s]. simpl. intros Hm.
  destruct m as [|[p|p|]|p]; simpl; lia.
Qed.

Lemma iter_pos_shr_1_nonneg (p : positive) (mrs : shr_record) :
  0 ≤ shr_m mrs → 0 ≤ shr_m (SpecFloat.iter_pos shr_1 p mrs).
Proof.
  revert mrs. induction p as [p IH|p IH|]; intros mrs Hm; simpl.
  - apply IH, IH. by apply shr_1_nonneg.
  - by apply IH, IH.
  - by apply shr_1_nonneg.
Qed.

Lemma shr_fexp_nonneg (m e : Z) (l : location) :
  0 ≤ m → 0 ≤ shr_m (shr_fexp F64.prec F64.emax m e l).1.
Proof.
  intros Hm. unfold shr_fexp, shr.
  assert (H0 : 0 ≤ shr_m (shr_record_of_loc m l))
    by (by destruct l as [|[]]).
  destruct (fexp _ _ _ - e) as [|p|p]; simpl; [done| |done].
  by apply iter_pos_shr_1_nonneg.
Qed.

Lemma round_nearest_even_nonneg (m : Z) (l : location) :
  0 ≤ m → 0 ≤ round_nearest_even m l.
Proof.
  intros Hm. destruct l as [|[]]; simpl; try lia.
  destruct (Z.even m); lia.
Qed.

(** Rounding a number with a mantissa that is not negative gives no NaN. *)
Lemma binary_round_aux_not_nan (sx : bool) (mx ex : Z) (lx : location) :
  0 ≤ mx →
  F64.isnan (binary_round_aux F64.prec F64.emax sx mx ex lx) = false.
Proof.
  intros Hm. unfold binary_round_aux.
  pose proof (shr_fexp_nonneg mx ex lx Hm) as H1.
  destruct (shr_fexp F64.prec F64.emax mx ex lx) as [mrs' e']. simpl in H1.
  pose proof (shr_fexp_nonneg
                (round_nearest_even (shr_m mrs') (loc_of_shr_record mrs'))
                e' loc_Exact (round_nearest_even_nonneg _ _ H1)) as H2.
  destruct (shr_fexp F64.prec F64.emax _ e' loc_Exact) as [mrs'' e''].
  simpl in H2. destruct (shr_m mrs'') as [|p|p]; [done| |lia].
  by destruct (e'' <=? _).
Qed.

Lemma binary_normalize_not_nan (m e : Z) (szero : bool) :
  F64.isnan (binary_normalize F64.prec F64.emax m e szero) = false.
Proof.
  unfold binary_normalize, binary_round.
  destruct m as [|p|p]; [done| |];
    destruct (shl_align _ _ _) as [mz ez];
    by apply binary_round_aux_not_nan.
Qed.

(** A number that is not NaN minus a finite number is not NaN. *)
Lemma F64_sub_finite_not_nan (x y : F64.t) :
  F64.isnan x = false → F64.is_finite y = true →
  F64.isnan (F64.sub x y) = false.
Proof.
  intros Hx Hy. unfold F64.sub, SFsub.
  destruct x as [sx|sx| |sx mx ex], y as [sy|sy| |sy my ey];
    try discriminate; try done.
  - by destruct sx, sy.
  - apply binary_normalize_not_nan.
Qed.

Lemma sentinel_not_nan (marker_min : F64.t) :
  F64.isnan marker_min = false → F64.isnan (sentinel marker_min) = false.
Proof. intros H. by apply F64_sub_finite_not_nan. Qed.
End F64_sub.

(* ===================================================================== *)
(** * More about map_to_atlas: failures and values *)
(* ===================================================================== *)

Section mapper_more.
Local Open Scope Z_scope.
Implicit Types (marker : list F64.t) (atlas : LabeledVolume).
Implicit Types (img : MappedVolume).

Lemma drop_nan_nil marker :
  drop_nan marker = [] ↔ Forall (λ y, F64.isnan y = true) marker.
Proof.
  unfold drop_nan. induction marker as [|y marker IH]; simpl.
  - split; [constructor|done].
  - destruct (F64.isnan y) eqn:Hy; simpl.
    + rewrite IH. split; [by constructor|]. by intros [_ ?]%Forall_cons.
    + split; [done|]. intros [? _]%Forall_cons. congruence.
Qed.

Lemma np_min_np_max_Ok (l : list F64.t) :
  l ≠ [] → ∃ lo hi, np_min l = Ok lo ∧ np_max l = Ok hi.
Proof. destruct l; [done|]. intros _. by eexists _, _. Qed.

(** The loop fails exactly when some nonzero label is out of range. *)
Lemma map_rois_Raise_iff marker (atlas_array : ndarray Z) (rois : list Z)
    (arr : ndarray F64.t) :
  map_rois marker atlas_array rois arr = Raise IndexError
  ↔ ∃ roi, roi ∈ rois ∧ roi ≠ 0 ∧ ¬ label_in_range marker roi.
Proof.
  split.
  - intros Hrun.
    destruct (decide (Exists (λ roi, roi ≠ 0 ∧ ¬ label_in_range marker roi)
                        rois)) as [Hex|Hall].
    + apply Exists_exists in Hex as (roi & Hin & Hroi). eauto.
    + exfalso. apply not_Exists_Forall in Hall; [|intros ?; apply _].
      destruct (map_rois_returns marker atlas_array rois arr) as [arr' Hok];
        [|congruence].
      intros roi Hin Hne. rewrite Forall_forall in Hall.
      specialize (Hall roi Hin). simpl in Hall.
      destruct (decide (label_in_range marker roi)) as [|Hout]; [done|].
      exfalso. apply Hall. by split.
  - intros (roi & Hin & Hne & Hout).
    destruct (map_rois marker atlas_array rois arr) as [arr'|e] eqn:Hrun.
    + exfalso. apply Hout. by eapply map_rois_Ok_index.
    + by rewrite (map_rois_Raise _ _ _ _ _ Hrun).
Qed.

(** X1. [map_to_atlas] raises [ValueError] exactly when the marker passes
    the length validation and has no entry that is not NaN (an empty
    marker included): the minimum of nothing is taken. *)
Theorem map_to_atlas_all_missing marker atlas :
  map_to_atlas marker atlas = Raise ValueError
  ↔ roi_count_ok marker (dataobj atlas) = true
    ∧ Forall (λ y, F64.isnan y = true) marker.
Proof.
  rewrite <- drop_nan_nil. unfold map_to_atlas, py_assert.
  destruct (roi_count_ok marker (dataobj atlas)); simpl.
  2: { split; [done|]. by intros [? _]. }
  destruct (drop_nan marker) as [|y l] eqn:Hdrop; simpl.
  - done.
  - split; [|by intros [_ ?]]. intros Hrun. exfalso.
    destruct (map_rois _ _ _ _) as [arr|e] eqn:Hloop; simpl in Hrun;
      [done|].
    apply map_rois_Raise in Hloop. congruence.
Qed.

(** X2. [map_to_atlas] raises [IndexError] exactly when the marker passes
    the length validation, has an entry that is not NaN, and some nonzero
    label of the atlas has no entry of the marker at label - 1. *)
Theorem map_to_atlas_label_out_of_range marker atlas :
  map_to_atlas marker atlas = Raise IndexError
  ↔ roi_count_ok marker (dataobj atlas) = true
    ∧ (∃ y, y ∈ marker ∧ F64.isnan y = false)
    ∧ (∃ label, label ∈ flat (dataobj atlas) ∧ label ≠ 0
                ∧ ¬ label_in_range marker label).
Proof.
  assert (Hnonempty : (∃ y, y ∈ marker ∧ F64.isnan y = false)
                      ↔ drop_nan marker ≠ []).
  { split.
    - intros (y & Hy & Hnan) Hnil.
      assert (y ∈ drop_nan marker) as Hin by (by apply elem_of_drop_nan).
      rewrite Hnil in Hin. by apply elem_of_nil in Hin.
    - destruct (drop_nan marker) as [|y l] eqn:Hdrop; [done|]. intros _.
      exists y. apply elem_of_drop_nan. rewrite Hdrop. by left. }
  rewrite Hnonempty.
  setoid_rewrite <- elem_of_np_unique.
  rewrite <- (map_rois_Raise_iff marker (dataobj atlas)
                (np_unique (dataobj atlas))
                (np_zeros (shape (dataobj atlas)))).
  unfold map_to_atlas, py_assert.
  destruct (roi_count_ok marker (dataobj atlas)); simpl.
  2: { split; [done|]. by intros [? _]. }
  destruct (drop_nan marker) as [|y l] eqn:Hdrop; simpl.
  - split; [done|]. by intros (_ & ? & _).
  - destruct (map_rois _ _ _ _) as [arr|e] eqn:Hloop; simpl.
    + split; [done|]. by intros (_ & _ & ?).
    + apply map_rois_Raise in Hloop as ->. done.
Qed.

(** X3. The only exceptions [map_to_atlas] raises are the assertion error
    of the length validation, [ValueError] and [IndexError]. *)
Theorem map_to_atlas_exceptions marker atlas (e : exn) :
  map_to_atlas marker atlas = Raise e →
  e = AssertionError roi_mismatch_msg ∨ e = ValueError ∨ e = IndexError.
Proof.
  unfold map_to_atlas, py_assert.
  destruct (roi_count_ok marker (dataobj atlas)); simpl;
    [|intros [= <-]; by left].
  destruct (np_min _) as [lo|e1] eqn:E1; simpl.
  2: { apply np_min_Raise in E1 as ->. intros [= <-]. right. by left. }
  destruct (np_max _) as [hi|e2] eqn:E2; simpl.
  2: { apply np_max_Raise in E2 as ->. intros [= <-]. right. by left. }
  destruct (map_rois _ _ _ _) as [arr|e3] eqn:E3; simpl; [done|].
  apply map_rois_Raise in E3 as ->. intros [= <-]. right. by right.
Qed.

Lemma map_to_atlas_exceptions_witness :
  IndexError = AssertionError roi_mismatch_msg
  ∨ IndexError = ValueError ∨ IndexError = IndexError.
Proof.
  apply (map_to_atlas_exceptions [F64.of_Z 10] full_atlas IndexError).
  vm_compute. reflexivity.
Defined.

(** An atlas of background only and no marker value at all: the length
    validation passes and the call fails on the minimum. *)
Example background_only :
  map_to_atlas []
    (mk_Nifti1Image (mk_ndarray [2; 1; 1]%nat [0; 0]) identity_affine
       (mk_Header F64.zero F64.zero))
  = Raise ValueError.
Proof. vm_compute. reflexivity. Qed.

(** A label above the length of the marker: labels 0 and 5, one value. *)
Example gap_in_labels :
  map_to_atlas [F64.of_Z 10]
    (mk_Nifti1Image (mk_ndarray [2; 1; 1]%nat [0; 5]) identity_affine
       (mk_Header F64.zero F64.zero))
  = Raise IndexError.
Proof. vm_compute. reflexivity. Qed.

Lemma map_to_atlas_length marker atlas img :
  map_to_atlas marker atlas = Ok img →
  wf_ndarray (dataobj atlas) →
  length (flat (dataobj img)) = length (flat (dataobj atlas)).
Proof.
  intros Hrun Hwf.
  destruct (map_to_atlas_Ok _ _ _ Hrun)
    as (marker_min & marker_max & arr & _ & _ & _ & Hloop & ->).
  destruct (map_rois_spec _ _ _ _ _ Hloop) as (_ & Hlen & _).
  { simpl. by rewrite length_replicate. }
  simpl in Hlen. rewrite length_replicate in Hlen. simpl.
  rewrite !length_zip_with, !length_fmap. unfold wf_ndarray in Hwf. lia.
Qed.

Lemma np_min_not_nan marker (marker_min : F64.t) :
  np_min (drop_nan marker) = Ok marker_min → F64.isnan marker_min = false.
Proof.
  intros Hmin.
  destruct (np_min_is_minimum _ _ (Forall_drop_nan marker) Hmin) as [Hin _].
  by apply elem_of_drop_nan in Hin as [_ ?].
Qed.

(** Where the value of a voxel of the Mapped Volume comes from. *)
Lemma map_to_atlas_value marker atlas img (x : nat) (y : F64.t) :
  map_to_atlas marker atlas = Ok img →
  wf_ndarray (dataobj atlas) →
  flat (dataobj img) !! x = Some y →
  ∃ marker_min label,
    np_min (drop_nan marker) = Ok marker_min
    ∧ flat (dataobj atlas) !! x = Some label
    ∧ (y = sentinel marker_min
       ∨ label ≠ 0 ∧ np_getitem marker (label - 1) = Ok y
         ∧ F64.isnan y = false).
Proof.
  intros Hrun Hwf Hy.
  destruct (lookup_lt_is_Some_2 (flat (dataobj atlas)) x) as [label Hx].
  { rewrite <- (map_to_atlas_length _ _ _ Hrun Hwf).
    apply lookup_lt_is_Some. eauto. }
  destruct (map_to_atlas_voxel _ _ _ _ _ Hrun Hwf Hx)
    as (marker_min & Hmin & Hbg & Hroi).
  exists marker_min, label. split; [done|]. split; [done|].
  destruct (decide (label = 0)) as [->|Hne].
  - left. rewrite Hbg in Hy by done. congruence.
  - destruct (Hroi Hne) as (value & Hget & Hv). rewrite Hv in Hy.
    destruct (F64.isnan value) eqn:Hnan; [left; congruence|].
    right. by simplify_eq.
Qed.

(** X4. A Mapped Volume holds no NaN: the values that are missing in the
    marker are replaced, and the masked value itself is a number. *)
Theorem map_to_atlas_no_nan marker atlas img :
  map_to_atlas marker atlas = Ok img →
  wf_ndarray (dataobj atlas) →
  Forall (λ y, F64.isnan y = false) (flat (dataobj img)).
Proof.
  intros Hrun Hwf. apply Forall_lookup. intros x y Hy.
  destruct (map_to_atlas_value _ _ _ _ _ Hrun Hwf Hy)
    as (marker_min & label & Hmin & _ & [->|(_ & _ & ?)]); [|done].
  apply sentinel_not_nan. by eapply np_min_not_nan.
Qed.

Lemma map_to_atlas_no_nan_witness :
  Forall (λ y, F64.isnan y = false)
    [F64.of_Z 10; F64.of_Z (-19990); F64.of_Z (-19990); F64.of_Z (-19990)].
Proof.
  apply (map_to_atlas_no_nan nan_marker scenario_atlas
           (mk_Nifti1Image
              (mk_ndarray [2; 2; 1]%nat
                 [F64.of_Z 10; F64.of_Z (-19990); F64.of_Z (-19990);
                  F64.of_Z (-19990)])
              identity_affine (mk_Header (F64.of_Z 10) (F64.of_Z 10)))).
  - exact nan_marker_runs.
  - reflexivity.
Defined.

(** X5. Every value of a Mapped Volume is the masked value, the minimum
    of the marker minus 20000, or one of the entries of the marker that
    are not NaN: nothing is left of the zeros the array starts from. *)
Theorem map_to_atlas_values marker atlas img :
  map_to_atlas marker atlas = Ok img →
  wf_ndarray (dataobj atlas) →
  ∃ marker_min,
    is_minimum marker_min (drop_nan marker)
    ∧ Forall (λ y, y = F64.sub marker_min (F64.of_Z 20000)
                   ∨ y ∈ drop_nan marker)
        (flat (dataobj img)).
Proof.
  intros Hrun Hwf.
  destruct (map_to_atlas_Ok _ _ _ Hrun)
    as (marker_min & _ & _ & _ & Hmin & _).
  exists marker_min. split.
  { apply np_min_is_minimum; [apply Forall_drop_nan | done]. }
  apply Forall_lookup. intros x y Hy.
  destruct (map_to_atlas_value _ _ _ _ _ Hrun Hwf Hy)
    as (marker_min' & label & Hmin' & _ & Hcase).
  assert (marker_min' = marker_min) as -> by congruence.
  destruct Hcase as [->|(_ & Hget & Hnan)]; [by left|].
  right. apply elem_of_drop_nan. split; [|done].
  by eapply np_getitem_elem_of.
Qed.

Lemma map_to_atlas_values_witness :
  ∃ marker_min,
    is_minimum marker_min (drop_nan tenth_marker)
    ∧ Forall (λ y, y = F64.sub marker_min (F64.of_Z 20000)
                   ∨ y ∈ drop_nan tenth_marker)
        (flat (dataobj tenth_img)).
Proof.
  apply (map_to_atlas_values tenth_marker scenario_atlas tenth_img).
  - vm_compute. reflexivity.
  - reflexivity.
Defined.

(** X6. A region is filled evenly: two voxels with the same atlas label
    hold the same value in the Mapped Volume. *)
Theorem map_to_atlas_region_constant marker atlas img (x y : nat)
    (label : Z) :
  map_to_atlas marker atlas = Ok img →
  wf_ndarray (dataobj atlas) →
  flat (dataobj atlas) !! x = Some label →
  flat (dataobj atlas) !! y = Some label →
  flat (dataobj img) !! x = flat (dataobj img) !! y
  ∧ is_Some (flat (dataobj img) !! x).
Proof.
  intros Hrun Hwf Hx Hy.
  destruct (map_to_atlas_voxel _ _ _ _ _ Hrun Hwf Hx)
    as (m1 & Hm1 & Hbg1 & Hroi1).
  destruct (map_to_atlas_voxel _ _ _ _ _ Hrun Hwf Hy)
    as (m2 & Hm2 & Hbg2 & Hroi2).
  assert (m2 = m1) as -> by congruence.
  destruct (decide (label = 0)) as [Hz|Hne].
  - rewrite Hbg1, Hbg2 by done. split; [done|]. by eexists.
  - destruct (Hroi1 Hne) as (v1 & Hg1 & ->).
    destruct (Hroi2 Hne) as (v2 & Hg2 & ->).
    assert (v2 = v1) as -> by congruence. split; [done|]. by eexists.
Qed.

Lemma map_to_atlas_region_constant_witness :
  flat (dataobj scenario_img) !! 2%nat = flat (dataobj scenario_img) !! 3%nat
  ∧ is_Some (flat (dataobj scenario_img) !! 2%nat).
Proof.
  apply (map_to_atlas_region_constant scenario_marker scenario_atlas
           scenario_img 2%nat 3%nat 0).
  - exact scenario_runs.
  - reflexivity.
  - reflexivity.
  - reflexivity.
Defined.

(** X7. When the smallest and the largest entry of the marker that are
    not NaN are float32 numbers, the display range is in order and holds
    the data: [cal_min] is that smallest entry, [cal_max] that largest,
    [cal_min] is at most [cal_max], and every voxel with a nonzero label
    and a sourced value that is not NaN holds a value between them. *)
Theorem map_to_atlas_within_display_range marker atlas img
    (marker_min marker_max : F64.t) :
  map_to_atlas marker atlas = Ok img →
  wf_ndarray (dataobj atlas) →
  np_min (drop_nan marker) = Ok marker_min →
  np_max (drop_nan marker) = Ok marker_max →
  F32.round marker_min = marker_min →
  F32.round marker_max = marker_max →
  cal_min (header img) = marker_min
  ∧ cal_max (header img) = marker_max
  ∧ F64.leb (cal_min (header img)) (cal_max (header img)) = true
  ∧ ∀ (x : nat) (label : Z) (value : F64.t),
      flat (dataobj atlas) !! x = Some label →
      label ≠ 0 →
      np_getitem marker (label - 1) = Ok value →
      F64.isnan value = false →
      flat (dataobj img) !! x = Some value
      ∧ F64.leb (cal_min (header img)) value = true
      ∧ F64.leb value (cal_max (header img)) = true.
Proof.
  intros Hrun Hwf Hmin Hmax Hrmin Hrmax.
  destruct (map_to_atlas_Ok _ _ _ Hrun)
    as (marker_min' & marker_max' & arr & _ & Hmin' & Hmax' & _ & Himg).
  assert (marker_min' = marker_min) as -> by congruence.
  assert (marker_max' = marker_max) as -> by congruence.
  destruct (np_min_is_minimum _ _ (Forall_drop_nan marker) Hmin)
    as [Hmin_in Hlo].
  destruct (np_max_is_maximum _ _ (Forall_drop_nan marker) Hmax)
    as [_ Hhi].
  assert (Hcal : cal_min (header img) = marker_min
                 ∧ cal_max (header img) = marker_max).
  { subst img. cbn [header cal_min cal_max]. by rewrite Hrmin, Hrmax. }
  destruct Hcal as [-> ->]. split; [done|]. split; [done|].
  split; [by apply Hhi|].
  intros x label value Hx Hne Hget Hnan.
  destruct (map_to_atlas_voxel _ _ _ _ _ Hrun Hwf Hx)
    as (marker_min' & _ & _ & Hroi).
  destruct (Hroi Hne) as (value' & Hget' & Hv).
  assert (value' = value) as -> by congruence.
  rewrite Hnan in Hv. split; [done|].
  assert (value ∈ drop_nan marker).
  { apply elem_of_drop_nan. split; [|done]. by eapply np_getitem_elem_of. }
  split; [by apply Hlo | by apply Hhi].
Qed.

Lemma map_to_atlas_within_display_range_witness :
  cal_min (header scenario_img) = F64.of_Z 10
  ∧ cal_max (header scenario_img) = F64.of_Z 20
  ∧ F64.leb (cal_min (header scenario_img)) (cal_max (header scenario_img))
    = true
  ∧ ∀ (x : nat) (label : Z) (value : F64.t),
      flat (dataobj scenario_atlas) !! x = Some label →
      label ≠ 0 →
      np_getitem scenario_marker (label - 1) = Ok value →
      F64.isnan value = false →
      flat (dataobj scenario_img) !! x = Some value
      ∧ F64.leb (cal_min (header scenario_img)) value = true
      ∧ F64.leb value (cal_max (header scenario_img)) = true.
Proof.
  apply (map_to_atlas_within_display_range scenario_marker scenario_atlas
           scenario_img (F64.of_Z 10) (F64.of_Z 20)).
  - exact scenario_runs.
  - reflexivity.
  - reflexivity.
  - reflexivity.
  - reflexivity.
  - reflexivity.
Defined.

(** X22. With labels that are not negative, [map_to_atlas] returns a
    Mapped Volume exactly when the labels of the atlas are the numbers
    from 0 to the length of the marker, every one of them, and some entry
    of the marker is not NaN. A gap in the labels or a missing background
    makes the call fail; it never passes unnoticed. *)
Theorem map_to_atlas_contiguous_labels marker atlas :
  (∀ label, label ∈ flat (dataobj atlas) → 0 ≤ label) →
  (∃ img, map_to_atlas marker atlas = Ok img)
  ↔ (∀ k, k ∈ flat (dataobj atlas) ↔ 0 ≤ k ≤ Z.of_nat (length marker))
    ∧ ∃ y, y ∈ marker ∧ F64.isnan y = false.
Proof.
  intros Hnonneg. rewrite map_to_atlas_returns, roi_count_ok_spec.
  set (N := Z.of_nat (length marker)).
  set (L := list_to_set (flat (dataobj atlas)) : gset Z).
  set (S := list_to_set (seqZ 0 (N + 1)) : gset Z).
  assert (HS : ∀ k, k ∈ S ↔ 0 ≤ k ≤ N).
  { intros k. subst S. rewrite elem_of_list_to_set, elem_of_seqZ. lia. }
  assert (HL : ∀ k, k ∈ L ↔ k ∈ flat (dataobj atlas)).
  { intros k. subst L. by rewrite elem_of_list_to_set. }
  assert (HsizeS : size S = Z.to_nat (N + 1)).
  { subst S. rewrite size_list_to_set by apply NoDup_seqZ.
    apply length_seqZ. }
  split.
  - intros (Hcount & Hy & Hrange). split; [|done].
    assert (Hsub : L ⊆ S).
    { intros k Hk. apply HS. apply HL in Hk.
      pose proof (Hnonneg k Hk). destruct (decide (k = 0)); [lia|].
      specialize (Hrange k Hk). unfold N. lia. }
    assert (HLS : L = S).
    { apply set_subseteq_size_eq; [done|]. fold L in Hcount.
      unfold n_labels in Hcount. fold L in Hcount. lia. }
    intros k. by rewrite <- HL, HLS.
  - intros (Hlabels & Hy).
    assert (HLS : L = S).
    { apply set_eq. intros k. by rewrite HL, HS. }
    split; [|split; [done|]].
    + unfold n_labels. fold L. rewrite HLS, HsizeS. lia.
    + intros label Hl Hne. apply Hlabels in Hl. fold N. lia.
Qed.

Lemma map_to_atlas_contiguous_labels_witness :
  (∃ img, map_to_atlas scenario_marker scenario_atlas = Ok img)
  ↔ (∀ k, k ∈ flat (dataobj scenario_atlas)
          ↔ 0 ≤ k ≤ Z.of_nat (length scenario_marker))
    ∧ ∃ y, y ∈ scenario_marker ∧ F64.isnan y = false.
Proof.
  apply (map_to_atlas_contiguous_labels scenario_marker scenario_atlas).
  intros label Hl.
  repeat (apply elem_of_cons in Hl as [->|Hl]; [lia|]).
  by apply elem_of_nil in Hl.
Defined.

Lemma np_getitem_negative {A} (v : list A) (i : Z) (x : A) :
  i < 0 →
  np_getitem v i = Ok x →
  v !! Z.to_nat (Z.of_nat (length v) + i) = Some x.
Proof.
  intros Hi. unfold np_getitem.
  destruct (Z.ltb_spec i (- Z.of_nat (length v))); [done|].
  destruct (Z.leb_spec (Z.of_nat (length v)) i); [done|]. simpl.
  destruct (Z.ltb_spec i 0); [|lia].
  replace (i + Z.of_nat (length v)) with (Z.of_nat (length v) + i) by lia.
  destruct (v !! _); [|done]. by intros [= ->].
Qed.

(** X8. A negative label is counted from the end of the marker, as numpy
    does with a negative index: a voxel labeled [k < 0] holds the entry
    at [len(marker) + k - 1] when that entry is not NaN. *)
Theorem map_to_atlas_negative_label marker atlas img (x : nat) (k : Z)
    (value : F64.t) :
  map_to_atlas marker atlas = Ok img →
  wf_ndarray (dataobj atlas) →
  flat (dataobj atlas) !! x = Some k →
  k < 0 →
  marker !! Z.to_nat (Z.of_nat (length marker) + k - 1) = Some value →
  F64.isnan value = false →
  flat (dataobj img) !! x = Some value.
Proof.
  intros Hrun Hwf Hx Hk Hval Hnan.
  destruct (map_to_atlas_voxel _ _ _ _ _ Hrun Hwf Hx)
    as (marker_min & _ & _ & Hroi).
  destruct Hroi as (value' & Hget & ->); [lia|].
  apply np_getitem_negative in Hget; [|lia].
  replace (Z.of_nat (length marker) + (k - 1))
    with (Z.of_nat (length marker) + k - 1) in Hget by lia.
  assert (value' = value) as -> by congruence.
  by rewrite Hnan.
Qed.

Lemma map_to_atlas_negative_label_witness :
  flat (dataobj negative_img) !! 2%nat = Some (F64.of_Z 10).
Proof.
  apply (map_to_atlas_negative_label scenario_marker negative_atlas
           negative_img 2%nat (-1) (F64.of_Z 10)).
  - vm_compute. reflexivity.
  - reflexivity.
  - reflexivity.
  - lia.
  - reflexivity.
  - reflexivity.
Defined.
End mapper_more.

(* ===================================================================== *)
(** * More about read_markers and prepare_output *)
(* ===================================================================== *)

Section reader_more.
Variable pd_read_csv : string → string → result DataFrame.

Lemma load_markers_table (np_loadtxt : string → result (list F64.t))
    (markers_path tail ext : string) :
  load_markers np_loadtxt pd_read_csv markers_path tail ext
  = if String.eqb ext ".txt" then
      col ← np_loadtxt markers_path; Ok [(tail, col)]
    else if String.eqb ext ".csv" then pd_read_csv markers_path ","
    else if String.eqb ext ".tsv" then pd_read_csv markers_path tab
    else Raise KeyError.
Proof.
  unfold load_markers.
  destruct (String.eqb_spec ext ".txt") as [->|Htxt].
  { rewrite bool_decide_eq_true_2 by (by left). done. }
  rewrite bool_decide_eq_false_2.
  2: { intros Hin. apply elem_of_cons in Hin as [Hin|Hin]; [done|].
       by apply elem_of_nil in Hin. }
  unfold dict_getitem.
  destruct (String.eqb_spec ext ".csv") as [->|Hcsv]; [done|].
  rewrite lookup_insert_ne by done.
  destruct (String.eqb_spec ext ".tsv") as [->|Htsv]; [done|].
  by rewrite lookup_insert_ne, lookup_empty by done.
Qed.

(** X9. [read_markers] decides by the extension of the path alone: a
    [.csv] path is read as a table with the separator [","], a [.tsv]
    path with a tab, and every other path, [.txt] included, fails the
    assertion. The lookup of the separator never fails. *)
Theorem read_markers_by_extension
    (np_loadtxt : string → result (list F64.t)) (markers_path : string) :
  read_markers np_loadtxt pd_read_csv markers_path
  = if String.eqb (os_path_splitext markers_path).2 ".csv"
    then pd_read_csv markers_path ","
    else if String.eqb (os_path_splitext markers_path).2 ".tsv"
    then pd_read_csv markers_path tab
    else Raise (AssertionError marker_format_msg).
Proof.
  rewrite read_markers_eq, load_markers_table. unfold py_assert.
  destruct (ext_ok _) eqn:Hok.
  - apply (ext_ok_spec np_loadtxt pd_read_csv) in Hok as [-> | ->]; reflexivity.
  - destruct (String.eqb_spec (os_path_splitext markers_path).2 ".csv")
      as [Hcsv|_].
    { assert (ext_ok (os_path_splitext markers_path).2 = true)
        by (apply (ext_ok_spec np_loadtxt pd_read_csv); by left). congruence. }
    destruct (String.eqb_spec (os_path_splitext markers_path).2 ".tsv")
      as [Htsv|_]; [|done].
    assert (ext_ok (os_path_splitext markers_path).2 = true)
      by (apply (ext_ok_spec np_loadtxt pd_read_csv); by right). congruence.
Qed.

(** X10. [read_markers] never reads a column of plain numbers: whatever
    [np.loadtxt] would return, the result is the same. *)
Theorem read_markers_never_loadtxt
    (np_loadtxt np_loadtxt' : string → result (list F64.t))
    (markers_path : string) :
  read_markers np_loadtxt pd_read_csv markers_path
  = read_markers np_loadtxt' pd_read_csv markers_path.
Proof.
  rewrite !read_markers_eq, !load_markers_table. unfold py_assert.
  destruct (ext_ok _) eqn:Hok; [|done].
  apply (ext_ok_spec np_loadtxt pd_read_csv) in Hok as [-> | ->]; reflexivity.
Qed.
End reader_more.

Section output_more.
Local Open Scope Z_scope.

(** X11. [prepare_output] can be repeated: a second call in the world the
    first one leaves returns what the first returned, the error
    included, and changes nothing. *)
Theorem prepare_output_idempotent (out_folder marker_file : string)
    (w : World) :
  prepare_output out_folder marker_file
    (prepare_output out_folder marker_file w).1
  = ((prepare_output out_folder marker_file w).1,
     (prepare_output out_folder marker_file w).2).
Proof.
  destruct (prepare_output_cases out_folder marker_file w)
    as [[_ Hrun]|[(_ & _ & Hrun)|[(Hout & _ & loc & Hloc & _ & _ & Hrun)
                                  |(_ & _ & e & Hrun)]]];
    rewrite Hrun; cbn [fst snd]; [done|done| |done].
  rewrite prepare_output_eq.
  rewrite (isdir_str_mono w (with_directory w loc) out_folder eq_refl)
    by (done || intros l; apply with_directory_mono).
  cbn zeta. by rewrite (isdir_with_directory _ _ _ Hloc).
Qed.

(** X12. [prepare_output] looks at the base name of the marker file only:
    the directory the file lies in plays no part. *)
Theorem prepare_output_base_name (out_folder marker_file : string)
    (w : World) :
  prepare_output out_folder marker_file w
  = prepare_output out_folder (os_path_split marker_file).2 w.
Proof.
  rewrite !prepare_output_eq. unfold run_name.
  by rewrite os_path_split_tail_idem.
Qed.
End output_more.

(* ===================================================================== *)
(** * More about the loop of main *)
(* ===================================================================== *)

Section driver_more.
Implicit Types (output_folder : Path) (atlas : LabeledVolume).
Implicit Types (markers : DataFrame) (names : list string) (w : World).
Implicit Types (loc there : Location).

Lemma append_cons (a : ascii) (s t : string) :
  (String a s ++ t)%string = String a (s ++ t).
Proof. reflexivity. Qed.

Lemma length_append (s t : string) :
  String.length (s ++ t) = (String.length s + String.length t)%nat.
Proof.
  induction s as [|a s IH]; [done|]. rewrite append_cons. simpl. by rewrite IH.
Qed.

Lemma has_char_append (c : ascii) (s t : string) :
  has_char c (s ++ t) = has_char c s || has_char c t.
Proof.
  induction s as [|a s IH]; [done|]. rewrite append_cons. simpl.
  by rewrite IH, orb_assoc.
Qed.

Lemma append_inj_r (s1 s2 t : string) :
  (s1 ++ t)%string = (s2 ++ t)%string → s1 = s2.
Proof.
  revert s2. induction s1 as [|a s1 IH]; intros [|b s2] H.
  - done.
  - change (t = String b (s2 ++ t)) in H.
    apply (f_equal String.length) in H.
    simpl in H. rewrite length_append in H. lia.
  - change (String a (s1 ++ t) = t) in H.
    apply (f_equal String.length) in H.
    simpl in H. rewrite length_append in H. lia.
  - rewrite !append_cons in H. injection H as -> H. f_equal. by apply IH.
Qed.

Lemma long_name_part (q : string) :
  (2 < String.length q)%nat →
  is_part q = true ∧ String.eqb q ".." = false.
Proof.
  destruct q as [|a [|b [|c q]]]; simpl; try lia. intros _.
  unfold is_part. simpl.
  split; [by destruct (Ascii.eqb a ".")|].
  destruct (Ascii.eqb a "."); [|done]. by destruct (Ascii.eqb b ".").
Qed.

Lemma image_location_inj there (name name' : string) :
  image_location there name = image_location there name' → name = name'.
Proof.
  unfold image_location. intros H. apply app_inv_head in H.
  injection H as H. by apply append_inj_r in H.
Qed.

(** The image of a column with a plain name goes into the output
    directory, under the name of the column followed by [.nii.gz]. *)
Lemma locate_image output_folder w there (name : string) :
  locate w output_folder = Ok there → is_directory w there = true →
  plain_name name = true →
  locate w (image_path output_folder name)
  = Ok (image_location there name).
Proof.
  intros Hthere Hdir Hplain. unfold plain_name in Hplain.
  apply andb_true_iff in Hplain as [Hsep Hnull].
  apply negb_true_iff in Hsep, Hnull.
  assert (Hsep' : has_char "/" (name ++ ".nii.gz") = false)
    by (by rewrite has_char_append, Hsep).
  assert (Hnull' : has_char "000"%char (name ++ ".nii.gz") = false)
    by (by rewrite has_char_append, Hnull).
  destruct (long_name_part (name ++ ".nii.gz")) as [Hpart Hup].
  { rewrite length_append. simpl. lia. }
  unfold image_path. rewrite (truediv_name _ _ Hsep' Hpart).
  by apply locate_entry.
Qed.

Lemma locate_Ok_same w w' (p : Path) loc :
  cwd w' = cwd w → dirs w' = dirs w →
  locate w p = Ok loc → locate w' p = Ok loc.
Proof.
  intros Hcwd Hdirs. apply locate_Ok_mono; [done|].
  intros l. unfold is_directory. by rewrite Hdirs.
Qed.

Lemma to_filename_cases (img : MappedVolume) (p : Path) w :
  (∃ loc, locate w p = Ok loc ∧ is_directory w loc = false
     ∧ to_filename img p w
       = (mk_World (cwd w) (dirs w) (files w) (<[ loc := img ]> (written w))
            (stdout w), Ok tt))
  ∨ (∃ e, to_filename img p w = (w, Raise e)).
Proof.
  unfold to_filename. destruct (locate w p) as [loc|e]; [|right; by eexists].
  destruct (is_directory w loc) eqn:Hdir; [right; by eexists|].
  left. by exists loc.
Qed.

(** One turn of the loop: the progress line is printed, then the image
    of the column is written, or the error of the column is raised. *)
Lemma write_marker_eq output_folder atlas markers (n_total i : nat)
    (name : string) w :
  write_marker output_folder atlas markers n_total i name w
  = match marker_image markers atlas name with
    | Ok img =>
        to_filename img (image_path output_folder name)
          (printed w (progress_line n_total i))
    | Raise e => (printed w (progress_line n_total i), Raise e)
    end.
Proof.
  unfold write_marker, marker_image, mbind, IO_bind, print, lift,
    image_path, progress_line, printed.
  cbn [fst snd].
  destruct (df_getitem markers name) as [col|e]; simpl; [|done].
  by destruct (map_to_atlas col atlas).
Qed.

(** A turn of the loop either writes the image of the column at the
    place of its path, which holds no directory, or fails, and then has
    printed its line and done nothing else. *)
Lemma write_marker_cases output_folder atlas markers (n_total i : nat)
    (name : string) w :
  (∃ img loc,
     marker_image markers atlas name = Ok img
     ∧ locate w (image_path output_folder name) = Ok loc
     ∧ is_directory w loc = false
     ∧ write_marker output_folder atlas markers n_total i name w
       = (mk_World (cwd w) (dirs w) (files w) (<[ loc := img ]> (written w))
            (stdout w ++ [progress_line n_total i])%list, Ok tt))
  ∨ (∃ e, write_marker output_folder atlas markers n_total i name w
          = (printed w (progress_line n_total i), Raise e)).
Proof.
  rewrite write_marker_eq.
  destruct (marker_image markers atlas name) as [img|e]; [|right; by eexists].
  destruct (to_filename_cases img (image_path output_folder name)
              (printed w (progress_line n_total i)))
    as [(loc & Hloc & Hdir & ->)|(e & ->)]; [|right; by eexists].
  left. exists img, loc. split; [done|]. split; [|done].
  by apply (locate_Ok_same (printed w (progress_line n_total i)) w).
Qed.

Lemma write_marker_Ok output_folder atlas markers (n_total i : nat)
    (name : string) w (img : MappedVolume) loc :
  marker_image markers atlas name = Ok img →
  locate w (image_path output_folder name) = Ok loc →
  is_directory w loc = false →
  write_marker output_folder atlas markers n_total i name w
  = (mk_World (cwd w) (dirs w) (files w) (<[ loc := img ]> (written w))
       (stdout w ++ [progress_line n_total i])%list, Ok tt).
Proof.
  intros Himg Hloc Hdir. rewrite write_marker_eq, Himg. unfold to_filename.
  rewrite (locate_Ok_same w (printed w (progress_line n_total i)) _ loc)
    by done.
  replace (is_directory (printed w (progress_line n_total i)) loc)
    with (is_directory w loc) by done.
  by rewrite Hdir.
Qed.

Lemma write_markers_cons output_folder atlas markers (n_total i : nat)
    (name : string) names w :
  write_markers output_folder atlas markers n_total i (name :: names) w
  = match write_marker output_folder atlas markers n_total i name w with
    | (w', Ok _) =>
        write_markers output_folder atlas markers n_total (S i) names w'
    | (w', Raise e) => (w', Raise e)
    end.
Proof. reflexivity. Qed.

Lemma write_markers_app output_folder atlas markers (n_total i : nat)
    (pre post : list string) w :
  write_markers output_folder atlas markers n_total i (pre ++ post)%list w
  = match write_markers output_folder atlas markers n_total i pre w with
    | (w', Ok _) =>
        write_markers output_folder atlas markers n_total
          (i + length pre) post w'
    | (w', Raise e) => (w', Raise e)
    end.
Proof.
  revert i w. induction pre as [|name pre IH]; intros i w.
  - simpl. by rewrite Nat.add_0_r.
  - rewrite <- app_comm_cons, !write_markers_cons.
    destruct (write_marker _ _ _ _ _ _ w) as [w' [[]|e]]; [|done].
    rewrite IH. simpl length.
    by replace (S i + length pre)%nat with (i + S (length pre))%nat by lia.
Qed.

(** What the loop leaves alone, whether it fails or not: the working
    directory, the directories and the regular files; an image stays an
    image, and stays the same at a place that the path of no column
    names. It prints the lines of the columns it has come to, which are
    all of them when it returns. *)
Lemma write_markers_world output_folder atlas markers (n_total i : nat)
    names w :
  cwd (write_markers output_folder atlas markers n_total i names w).1 = cwd w
  ∧ dirs (write_markers output_folder atlas markers n_total i names w).1
    = dirs w
  ∧ files (write_markers output_folder atlas markers n_total i names w).1
    = files w
  ∧ (∀ loc, is_Some (written w !! loc) →
       is_Some (written (write_markers output_folder atlas markers n_total i
                           names w).1 !! loc))
  ∧ (∀ loc,
       (∀ name, name ∈ names →
          locate w (image_path output_folder name) ≠ Ok loc) →
       written (write_markers output_folder atlas markers n_total i
                  names w).1 !! loc = written w !! loc)
  ∧ ∃ k, (k ≤ length names)%nat
      ∧ stdout (write_markers output_folder atlas markers n_total i
                  names w).1
        = (stdout w ++ (progress_line n_total <$> seq i k))%list
      ∧ ((write_markers output_folder atlas markers n_total i names w).2
         = Ok tt → k = length names).
Proof.
  revert i w. induction names as [|name names IH]; intros i w.
  { simpl. repeat (split; [done|]). exists 0%nat. simpl.
    by rewrite app_nil_r. }
  rewrite write_markers_cons.
  destruct (write_marker_cases output_folder atlas markers n_total i name w)
    as [(img & loc & Himg & Hloc & Hdir & ->)|(e & ->)].
  - set (w' := mk_World (cwd w) (dirs w) (files w)
                 (<[ loc := img ]> (written w))
                 (stdout w ++ [progress_line n_total i])%list).
    destruct (IH (S i) w') as (Hcwd & Hdirs & Hfiles & Hsome & Hother & Hout).
    split; [done|]. split; [done|]. split; [done|]. split; [|split].
    + intros l Hl. apply Hsome. subst w'. cbn [written].
      rewrite lookup_insert_is_Some. destruct (decide (loc = l)); auto.
    + intros l Hl. rewrite Hother.
      * subst w'. cbn [written]. apply lookup_insert_ne. intros ->.
        by apply (Hl name); [left|].
      * intros name' Hin Hname'. apply (Hl name'); [by right|].
        by apply (locate_Ok_same w' w).
    + destruct Hout as (k & Hk & Hstd & Hret). exists (S k).
      split; [simpl; lia|]. split; [|by intros ->%Hret].
      rewrite Hstd. subst w'. cbn [stdout]. by rewrite <- app_assoc.
  - cbn [fst snd]. repeat (split; [done|]). exists 1%nat.
    split; [simpl; lia|]. done.
Qed.

Lemma write_images_cons there atlas markers (name : string) names
    (m : gmap Location MappedVolume) :
  write_images there atlas markers (name :: names) m
  = write_images there atlas markers names
      (match marker_image markers atlas name with
       | Ok img => <[ image_location there name := img ]> m
       | Raise _ => m
       end).
Proof. reflexivity. Qed.

Lemma write_images_other there atlas markers names
    (m : gmap Location MappedVolume) loc :
  loc ∉ image_location there <$> names →
  write_images there atlas markers names m !! loc = m !! loc.
Proof.
  revert m. induction names as [|name names IH]; intros m Hp; [done|].
  rewrite fmap_cons in Hp. apply not_elem_of_cons in Hp as [Hne Hp].
  rewrite write_images_cons, (IH _ Hp).
  destruct (marker_image markers atlas name); [|done].
  by rewrite lookup_insert_ne.
Qed.

Lemma write_images_lookup there atlas markers names
    (m : gmap Location MappedVolume) (name : string) (img : MappedVolume) :
  NoDup names →
  name ∈ names →
  marker_image markers atlas name = Ok img →
  write_images there atlas markers names m !! image_location there name
  = Some img.
Proof.
  revert m. induction names as [|name' names IH]; intros m Hnd Hin Himg.
  { by apply elem_of_nil in Hin. }
  apply NoDup_cons in Hnd as [Hfresh Hnd].
  rewrite write_images_cons.
  apply elem_of_cons in Hin as [<-|Hin]; [|by apply IH].
  rewrite write_images_other, Himg; [by rewrite lookup_insert_eq|].
  intros (name' & Heq & Hin)%list_elem_of_fmap.
  by apply image_location_inj in Heq as <-.
Qed.

(** A loop without failure: every column has an image, a plain name,
    and no directory at the place of its image. *)
Lemma write_markers_Ok output_folder atlas markers (n_total i : nat)
    names w there :
  locate w output_folder = Ok there → is_directory w there = true →
  Forall (λ name, (∃ img, marker_image markers atlas name = Ok img)
                  ∧ plain_name name = true
                  ∧ is_directory w (image_location there name) = false)
    names →
  write_markers output_folder atlas markers n_total i names w
  = (mk_World (cwd w) (dirs w) (files w)
       (write_images there atlas markers names (written w))
       (stdout w ++ (progress_line n_total <$> seq i (length names)))%list,
     Ok tt).
Proof.
  revert i w. induction names as [|name names IH]; intros i w Hthere Hdir Hall.
  - simpl. rewrite app_nil_r. by destruct w.
  - apply Forall_cons in Hall as [([img Himg] & Hplain & Hfree) Hall].
    rewrite write_markers_cons.
    rewrite (write_marker_Ok _ _ _ _ _ _ _ img
               (image_location there name)) by (by try apply locate_image).
    rewrite IH.
    + cbn [cwd dirs files written stdout].
      rewrite write_images_cons, Himg, <- app_assoc. done.
    + by apply (locate_Ok_same w).
    + done.
    + eapply Forall_impl; [exact Hall|]. by intros name' (? & ? & ?).
Qed.

(** X13. The loop of [main] stops at the first column that fails, in
    the mapping or in the writing, with the error of that column,
    whatever it is: the loop over the columns before it has done its
    work, the progress line of the failing column is the last one
    printed and the only thing added, and no later column is looked
    at. *)
Theorem write_markers_first_failure output_folder atlas markers
    (n_total i : nat) (pre : list string) (name : string)
    (post : list string) w (e : exn) :
  (write_markers output_folder atlas markers n_total i pre w).2 = Ok tt →
  (write_marker output_folder atlas markers n_total (i + length pre) name
     (write_markers output_folder atlas markers n_total i pre w).1).2
  = Raise e →
  write_markers output_folder atlas markers n_total i (pre ++ name :: post) w
  = (printed (write_markers output_folder atlas markers n_total i pre w).1
       (progress_line n_total (i + length pre)),
     Raise e).
Proof.
  intros Hpre Hfail. rewrite write_markers_app.
  destruct (write_markers _ _ _ _ i pre w) as [w' r]. cbn [fst snd] in *.
  subst r. rewrite write_markers_cons.
  destruct (write_marker_cases output_folder atlas markers n_total
              (i + length pre) name w')
    as [(img & loc & _ & _ & _ & Hrun)|(e' & Hrun)];
    rewrite Hrun in Hfail |- *; cbn [snd] in Hfail; [done|].
  by injection Hfail as ->.
Qed.

Lemma write_markers_first_failure_witness :
  write_markers ["out"; "m"] scenario_atlas
    [("A", scenario_marker); ("B", [F64.of_Z 1]); ("C", scenario_marker)]
    3 0 (["A"] ++ "B" :: ["C"]) scenario_world
  = (printed
       (write_markers ["out"; "m"] scenario_atlas
          [("A", scenario_marker); ("B", [F64.of_Z 1]);
           ("C", scenario_marker)] 3 0 ["A"] scenario_world).1
       (progress_line 3 (0 + length ["A"])),
     Raise (AssertionError roi_mismatch_msg)).
Proof.
  apply (write_markers_first_failure ["out"; "m"] scenario_atlas
           [("A", scenario_marker); ("B", [F64.of_Z 1]);
            ("C", scenario_marker)] 3 0 ["A"] "B" ["C"] scenario_world).
  - vm_compute. reflexivity.
  - vm_compute. reflexivity.
Defined.
End driver_more.

(* ===================================================================== *)
(** * More about main *)
(* ===================================================================== *)

Section main_more.
Variable np_loadtxt : string → result (list F64.t).
Variable pd_read_csv : string → string → result DataFrame.
Variable load_img : string → result LabeledVolume.
Implicit Types (args : Args) (w : World) (loc there : Location).

(** [main], step by step. *)
Lemma main_eq args w :
  main np_loadtxt pd_read_csv load_img args w
  = match prepare_output (out_folder args) (marker_file args) w with
    | (w1, Raise e) => (w1, Raise e)
    | (w1, Ok output_folder) =>
        match load_img (parcellation_file args) with
        | Raise e => (w1, Raise e)
        | Ok parcellation =>
            match read_markers np_loadtxt pd_read_csv (marker_file args) with
            | Raise e => (w1, Raise e)
            | Ok markers =>
                write_markers output_folder parcellation markers
                  (length (columns markers)) 0 (columns markers) w1
            end
        end
    end.
Proof.
  unfold main, mbind, IO_bind, lift, load_atlas.
  destruct (prepare_output _ _ w) as [w1 [output_folder|e]]; [|done].
  destruct (load_img _) as [parcellation|e]; [|done].
  by destruct (read_markers _ _ _).
Qed.

(** After [prepare_output] the run makes and removes no directory, and
    it never touches the working directory and the regular files; no
    image is removed. *)
Lemma main_world args w :
  cwd (main np_loadtxt pd_read_csv load_img args w).1 = cwd w
  ∧ dirs (main np_loadtxt pd_read_csv load_img args w).1
    = dirs (prepare_output (out_folder args) (marker_file args) w).1
  ∧ files (main np_loadtxt pd_read_csv load_img args w).1 = files w
  ∧ ∀ loc, is_Some (written w !! loc) →
      is_Some (written (main np_loadtxt pd_read_csv load_img args w).1
                 !! loc).
Proof.
  assert (Hw1 : cwd (prepare_output (out_folder args) (marker_file args) w).1
                = cwd w
              ∧ files (prepare_output (out_folder args) (marker_file args)
                         w).1 = files w
              ∧ written (prepare_output (out_folder args) (marker_file args)
                           w).1 = written w).
  { by destruct (prepare_output_world (out_folder args) (marker_file args) w)
      as [->|(loc & _ & _ & _ & ->)]. }
  rewrite main_eq.
  destruct (prepare_output _ _ w) as [w1 [output_folder|e]];
    cbn [fst snd] in *; destruct Hw1 as (Hcwd & Hfiles & Hwritten).
  2: { by rewrite <- Hwritten. }
  destruct (load_img _) as [parcellation|e];
    [|cbn [fst]; by rewrite <- Hwritten].
  destruct (read_markers _ _ _) as [markers|e];
    [|cbn [fst]; by rewrite <- Hwritten].
  destruct (write_markers_world output_folder parcellation markers
              (length (columns markers)) 0 (columns markers) w1)
    as (-> & -> & -> & Hsome & _).
  repeat (split; [done|]). intros loc Hloc. apply Hsome. by rewrite Hwritten.
Qed.

(** X14. [main] without an existing [out_folder] fails with
    [FileNotFoundError] before anything is read or made: the world is as it
    was, whatever the atlas and the marker file hold. *)
Theorem main_missing_out_folder args w :
  isdir_str w (out_folder args) = false →
  main np_loadtxt pd_read_csv load_img args w
  = (w, Raise (FileNotFoundError
                 (out_folder args ++ " is not an existing directory!"))).
Proof. intros Hout. by rewrite main_eq, prepare_output_eq, Hout. Qed.


(** X16. The atlas is loaded before the marker file is read: when
    [prepare_output] has returned and the atlas cannot be loaded, [main]
    fails with the error of the atlas whatever the marker file is,
    having written and printed nothing. *)
Theorem main_atlas_first args w (output_folder : Path) (e : exn) :
  (prepare_output (out_folder args) (marker_file args) w).2
  = Ok output_folder →
  load_img (parcellation_file args) = Raise e →
  (main np_loadtxt pd_read_csv load_img args w).2 = Raise e
  ∧ written (main np_loadtxt pd_read_csv load_img args w).1 = written w
  ∧ stdout (main np_loadtxt pd_read_csv load_img args w).1 = stdout w.
Proof.
  intros Hprep Hload. rewrite main_eq.
  destruct (prepare_output_world (out_folder args) (marker_file args) w)
    as [Hw1|(loc & _ & _ & _ & Hw1)];
    destruct (prepare_output _ _ w) as [w1 r]; cbn [fst snd] in *;
    subst w1 r; by rewrite Hload.
Qed.

(** X17. A plain-text marker file cannot be processed: when
    [prepare_output] has returned and the atlas loads, [main] on a path
    with the extension [.txt] stops at the assertion of [read_markers];
    the output directory is there, and nothing has been written or
    printed. *)
Theorem main_txt_fails args w (output_folder : Path)
    (parcellation : LabeledVolume) :
  (os_path_splitext (marker_file args)).2 = ".txt" →
  (prepare_output (out_folder args) (marker_file args) w).2
  = Ok output_folder →
  load_img (parcellation_file args) = Ok parcellation →
  (main np_loadtxt pd_read_csv load_img args w).2
  = Raise (AssertionError marker_format_msg)
  ∧ output_folder = output_dir args
  ∧ isdir (main np_loadtxt pd_read_csv load_img args w).1 output_folder
    = true
  ∧ written (main np_loadtxt pd_read_csv load_img args w).1 = written w
  ∧ stdout (main np_loadtxt pd_read_csv load_img args w).1 = stdout w.
Proof.
  intros Hext Hprep Hload. rewrite main_eq.
  destruct (prepare_output _ _ w) as [w1 r] eqn:Hrun. cbn [snd] in Hprep.
  subst r. apply prepare_output_Ok in Hrun as (Hfolder & Hdir & Hw1).
  rewrite Hload.
  destruct (read_markers_accepts np_loadtxt pd_read_csv (marker_file args))
    as [[_ [H|H]]|[-> _]]; [rewrite Hext in H; discriminate..|].
  cbn [fst snd]. do 3 (split; [done|]).
  by destruct Hw1 as [->|(loc & _ & _ & _ & ->)].
Qed.

(** X18. A run without failure. When [prepare_output] returns the output
    directory, the atlas loads and the table is read, and when every
    column maps, the names of the columns are plain (without slash and
    null character) and distinct, and no directory stands where an
    image is to go, then [main] returns; the image of every column is
    written in the output directory under the name of the column
    followed by [.nii.gz], and the image at every other place is as it
    was. *)
Theorem main_writes_images args w (output_folder : Path)
    (parcellation : LabeledVolume) (markers : DataFrame) there :
  (prepare_output (out_folder args) (marker_file args) w).2
  = Ok output_folder →
  locate (prepare_output (out_folder args) (marker_file args) w).1
    output_folder = Ok there →
  load_img (parcellation_file args) = Ok parcellation →
  read_markers np_loadtxt pd_read_csv (marker_file args) = Ok markers →
  Forall (λ name, (∃ img, marker_image markers parcellation name = Ok img)
                  ∧ plain_name name = true
                  ∧ is_directory w (image_location there name) = false)
    (columns markers) →
  NoDup (columns markers) →
  (main np_loadtxt pd_read_csv load_img args w).2 = Ok tt
  ∧ (∀ name img,
       name ∈ columns markers →
       marker_image markers parcellation name = Ok img →
       written (main np_loadtxt pd_read_csv load_img args w).1
         !! image_location there name = Some img)
  ∧ (∀ loc, loc ∉ image_location there <$> columns markers →
       written (main np_loadtxt pd_read_csv load_img args w).1 !! loc
       = written w !! loc).
Proof.
  intros Hprep Hthere Hload Hread Hall Hnd. rewrite main_eq.
  destruct (prepare_output _ _ w) as [w1 r] eqn:Hrun.
  cbn [fst snd] in Hprep, Hthere. subst r.
  apply prepare_output_Ok in Hrun as (_ & Hdir & Hw1).
  apply isdir_true in Hdir as (there' & Hthere' & Hdir).
  assert (there' = there) as -> by congruence.
  assert (Hwritten : written w1 = written w).
  { by destruct Hw1 as [->|(loc & _ & _ & _ & ->)]. }
  assert (Hall1 : Forall
            (λ name, (∃ img, marker_image markers parcellation name = Ok img)
                     ∧ plain_name name = true
                     ∧ is_directory w1 (image_location there name) = false)
            (columns markers)).
  { eapply Forall_impl; [exact Hall|]. intros name (Himg & Hplain & Hfree).
    do 2 (split; [done|]).
    destruct Hw1 as [->|(loc & Hloc & _ & _ & ->)]; [done|].
    rewrite is_directory_with_directory, Hfree. cbn [orb].
    apply bool_decide_eq_false_2. intros Heq.
    assert (loc = there) as ->.
    { apply (locate_Ok_mono w (with_directory w loc)) in Hloc;
        [congruence|done|]. intros l. apply with_directory_mono. }
    unfold image_location in Heq.
    apply (f_equal length) in Heq. rewrite length_app in Heq. simpl in Heq.
    lia. }
  rewrite Hload, Hread.
  rewrite (write_markers_Ok _ _ _ _ _ _ _ there Hthere Hdir Hall1).
  cbn [fst snd written]. rewrite Hwritten. split; [done|]. split.
  - intros name img Hin Himg. by apply write_images_lookup.
  - intros loc Hloc. by apply write_images_other.
Qed.

(** X19. The progress of a run: what a run prints is one line per
    column it has come to, in the order of the table, counting from 0;
    a run that returns has printed a line for every column, so that the
    last line of a table of [n] columns reads [n-1] of [n]. *)
Theorem main_progress args w (parcellation : LabeledVolume)
    (markers : DataFrame) :
  load_img (parcellation_file args) = Ok parcellation →
  read_markers np_loadtxt pd_read_csv (marker_file args) = Ok markers →
  ∃ k, (k ≤ length (columns markers))%nat
    ∧ stdout (main np_loadtxt pd_read_csv load_img args w).1
      = (stdout w
         ++ (progress_line (length (columns markers)) <$> seq 0 k))%list
    ∧ ((main np_loadtxt pd_read_csv load_img args w).2 = Ok tt →
       k = length (columns markers)).
Proof.
  intros Hload Hread. rewrite main_eq.
  assert (Hstd : stdout (prepare_output (out_folder args) (marker_file args)
                           w).1 = stdout w).
  { by destruct (prepare_output_world (out_folder args) (marker_file args) w)
      as [->|(loc & _ & _ & _ & ->)]. }
  destruct (prepare_output _ _ w) as [w1 [output_folder|e]];
    cbn [fst] in Hstd.
  2: { exists 0%nat. split; [lia|]. simpl. by rewrite app_nil_r, Hstd. }
  rewrite Hload, Hread.
  destruct (write_markers_world output_folder parcellation markers
              (length (columns markers)) 0 (columns markers) w1)
    as (_ & _ & _ & _ & _ & k & Hk & Hout & Hret).
  exists k. by rewrite Hout, Hstd.
Qed.

(** X20. Whatever happens, a run removes no image, and it changes no
    image at a place that is not the place of the image path of a column
    of its table. *)
Theorem main_frame args w loc :
  dom (written w)
    ⊆@{gset Location} dom (written (main np_loadtxt pd_read_csv load_img
                                      args w).1)
  ∧ ((∀ markers name,
        read_markers np_loadtxt pd_read_csv (marker_file args) = Ok markers →
        name ∈ columns markers →
        locate (prepare_output (out_folder args) (marker_file args) w).1
          (image_path (output_dir args) name) ≠ Ok loc) →
     written (main np_loadtxt pd_read_csv load_img args w).1 !! loc
     = written w !! loc).
Proof.
  split.
  { intros l. rewrite !elem_of_dom. apply main_world. }
  intros Hp. rewrite main_eq.
  assert (Hwritten : written (prepare_output (out_folder args)
                                (marker_file args) w).1 = written w).
  { by destruct (prepare_output_world (out_folder args) (marker_file args) w)
      as [->|(l & _ & _ & _ & ->)]. }
  destruct (prepare_output _ _ w) as [w1 [output_folder|e]] eqn:Hrun;
    cbn [fst] in Hwritten, Hp; [|by rewrite <- Hwritten].
  apply prepare_output_Ok in Hrun as (-> & _ & _). fold (output_dir args).
  destruct (load_img _) as [parcellation|e]; [|by rewrite <- Hwritten].
  destruct (read_markers _ _ _) as [markers|e] eqn:Hread;
    [|by rewrite <- Hwritten].
  destruct (write_markers_world (output_dir args) parcellation markers
              (length (columns markers)) 0 (columns markers) w1)
    as (_ & _ & _ & _ & Hother & _).
  rewrite Hother, Hwritten; [done|]. intros name Hin. by apply (Hp markers).
Qed.
End main_more.

Lemma main_missing_out_folder_witness :
  main loadtxt_five read_csv_two load_scenario_atlas nowhere_args output_world
  = (output_world,
     Raise (FileNotFoundError "nowhere is not an existing directory!")).
Proof.
  apply (main_missing_out_folder loadtxt_five read_csv_two
           load_scenario_atlas nowhere_args output_world).
  reflexivity.
Defined.

Lemma main_atlas_first_witness :
  (main loadtxt_five read_csv_two load_no_atlas txt_args output_world).2
  = Raise (ExternalError "cannot load the atlas")
  ∧ written (main loadtxt_five read_csv_two load_no_atlas txt_args
               output_world).1 = written output_world
  ∧ stdout (main loadtxt_five read_csv_two load_no_atlas txt_args
              output_world).1 = stdout output_world.
Proof.
  apply (main_atlas_first loadtxt_five read_csv_two load_no_atlas txt_args
           output_world ["out"; "thickness"]
           (ExternalError "cannot load the atlas")).
  - vm_compute. reflexivity.
  - reflexivity.
Defined.

Lemma main_txt_fails_witness :
  (main loadtxt_five read_csv_two load_scenario_atlas txt_args
     output_world).2
  = Raise (AssertionError marker_format_msg)
  ∧ ["out"; "thickness"] = output_dir txt_args
  ∧ isdir (main loadtxt_five read_csv_two load_scenario_atlas txt_args
             output_world).1 ["out"; "thickness"] = true
  ∧ written (main loadtxt_five read_csv_two load_scenario_atlas txt_args
               output_world).1 = written output_world
  ∧ stdout (main loadtxt_five read_csv_two load_scenario_atlas txt_args
              output_world).1 = stdout output_world.
Proof.
  apply (main_txt_fails loadtxt_five read_csv_two load_scenario_atlas
           txt_args output_world ["out"; "thickness"] scenario_atlas).
  - reflexivity.
  - vm_compute. reflexivity.
  - reflexivity.
Defined.

Lemma main_writes_images_witness :
  (main loadtxt_five read_csv_two load_scenario_atlas scenario_args
     output_world).2 = Ok tt
  ∧ (∀ name img,
       name ∈ ["A"; "B"] →
       marker_image
         [("A", [F64.of_Z 10; F64.of_Z 20]); ("B", [F64.of_Z 1; F64.nan])]
         scenario_atlas name = Ok img →
       written (main loadtxt_five read_csv_two load_scenario_atlas
                  scenario_args output_world).1
         !! image_location ["work"; "out"; "markers"] name = Some img)
  ∧ (∀ loc,
       loc ∉ image_location ["work"; "out"; "markers"] <$> ["A"; "B"] →
       written (main loadtxt_five read_csv_two load_scenario_atlas
                  scenario_args output_world).1 !! loc
       = written output_world !! loc).
Proof.
  apply (main_writes_images loadtxt_five read_csv_two load_scenario_atlas
           scenario_args output_world ["out"; "markers"] scenario_atlas
           [("A", [F64.of_Z 10; F64.of_Z 20]); ("B", [F64.of_Z 1; F64.nan])]
           ["work"; "out"; "markers"]).
  - vm_compute. reflexivity.
  - vm_compute. reflexivity.
  - reflexivity.
  - reflexivity.
  - constructor; [split; [eexists; reflexivity | split; reflexivity]|].
    constructor; [split; [eexists; reflexivity | split; reflexivity]|].
    constructor.
  - apply (bool_decide_unpack _). vm_compute. exact I.
Defined.

Lemma main_progress_witness :
  ∃ k, (k ≤ 2)%nat
    ∧ stdout (main loadtxt_five read_csv_two load_scenario_atlas
                scenario_args output_world).1
      = (stdout output_world ++ (progress_line 2 <$> seq 0 k))%list
    ∧ ((main loadtxt_five read_csv_two load_scenario_atlas scenario_args
          output_world).2 = Ok tt → k = 2%nat).
Proof.
  apply (main_progress loadtxt_five read_csv_two load_scenario_atlas
           scenario_args output_world scenario_atlas
           [("A", [F64.of_Z 10; F64.of_Z 20]); ("B", [F64.of_Z 1; F64.nan])]).
  - reflexivity.
  - reflexivity.
Defined.

Lemma main_frame_witness :
  dom (written archive_world)
    ⊆@{gset Location} dom (written (main loadtxt_five read_csv_two
                                      load_scenario_atlas scenario_args
                                      archive_world).1)
  ∧ written (main loadtxt_five read_csv_two load_scenario_atlas scenario_args
               archive_world).1 !! ["work"; "old.nii.gz"]
    = written archive_world !! ["work"; "old.nii.gz"].
Proof.
  destruct (main_frame loadtxt_five read_csv_two load_scenario_atlas
              scenario_args archive_world ["work"; "old.nii.gz"])
    as [Hdom Hsame].
  split; [exact Hdom|]. apply Hsame.
  intros markers name [= <-] Hin.
  apply elem_of_cons in Hin as [->|Hin]; [vm_compute; discriminate|].
  apply elem_of_cons in Hin as [->|Hin]; [vm_compute; discriminate|].
  by apply elem_of_nil in Hin.
Defined.

(* ===================================================================== *)
(** * The extension, for the reader and for the writer *)
(* ===================================================================== *)

Section extension.
Local Open Scope Z_scope.

(** The extension of the base name of a path is the extension of the
    path. *)
Lemma os_path_splitext_tail (p : string) :
  (os_path_splitext (os_path_split p).2).2 = (os_path_splitext p).2.
Proof.
  rewrite os_path_split_tail.
  pose proof (rfind_lower "/" p) as Hsep.
  set (k := Z.to_nat (rfind "/" p + 1)).
  set (tail := str_drop k p).
  assert (Hnosep : has_char "/" tail = false).
  { subst tail k. rewrite <- os_path_split_tail.
    apply os_path_split_tail_no_sep. }
  assert (Hsep' : rfind "/" tail = -1).
  { unfold rfind. by apply rfind_from_absent. }
  assert (Hdot : rfind "." p
                 = rfind_from "." tail (Z.of_nat k)
                     (rfind "." (substring 0 k p))).
  { unfold rfind at 1. by rewrite (rfind_from_drop "." p k). }
  unfold os_path_splitext at 1 2. rewrite Hsep'.
  destruct (has_char "." tail) eqn:Hhas.
  - assert (Hdot' : rfind "." p = rfind "." tail + Z.of_nat k).
    { rewrite Hdot.
      rewrite (rfind_from_present "." tail _ _ (-1 + Z.of_nat k) Hhas).
      unfold rfind.
      rewrite <- (rfind_from_shift "." tail 0 (-1) (Z.of_nat k)).
      by rewrite Z.add_0_l. }
    pose proof (rfind_present_nonneg "." tail Hhas) as Hnn.
    rewrite Hdot'.
    destruct (Z.ltb_spec (-1) (rfind "." tail)); [|lia].
    destruct (Z.ltb_spec (rfind "/" p) (rfind "." tail + Z.of_nat k));
      [|lia].
    cbn [andb].
    replace (Z.to_nat (rfind "." tail + Z.of_nat k - (rfind "/" p + 1)))
      with (Z.to_nat (rfind "." tail)) by lia.
    replace (Z.to_nat (-1 + 1)) with 0%nat by lia.
    replace (Z.to_nat (rfind "." tail - (-1 + 1)))
      with (Z.to_nat (rfind "." tail)) by lia.
    fold k. replace k with (k + 0)%nat at 1 by lia.
    rewrite has_non_dot_str_drop. fold tail.
    destruct (has_non_dot tail 0 _); cbn [snd]; [|done].
    rewrite !slice_from_drop.
    replace (Z.to_nat (rfind "." tail + Z.of_nat k))
      with (k + Z.to_nat (rfind "." tail))%nat by lia.
    by rewrite str_drop_add.
  - assert (Hdot' : rfind "." p = rfind "." (substring 0 k p)).
    { rewrite Hdot. by apply rfind_from_absent. }
    assert (Htail : rfind "." tail = -1).
    { unfold rfind. by apply rfind_from_absent. }
    rewrite Htail. cbn [Z.ltb Z.compare andb snd].
    pose proof (rfind_from_upper "." (substring 0 k p) 0 (-1)) as Hup.
    pose proof (length_substring_le p k) as Hlen.
    fold (rfind "." (substring 0 k p)) in Hup. rewrite <- Hdot' in Hup.
    destruct (Z.ltb_spec (rfind "/" p) (rfind "." p)); [lia|done].
Qed.

Lemma os_path_splitext_concat (s : string) :
  ((os_path_splitext s).1 ++ (os_path_splitext s).2)%string = s.
Proof.
  unfold os_path_splitext. destruct (_ && _); cbn [fst snd].
  - unfold slice_to. rewrite slice_from_drop.
    symmetry. apply substring_str_drop.
  - apply append_empty.
Qed.

(** X21. The reader and the writer agree on the extension: the base name
    of the marker file is the name of the output directory followed by
    the extension that [read_markers] decides by. For a [.csv] file the
    directory is named by the base name without its [.csv]. *)
Theorem base_name_run_name_extension (marker_file : string) :
  (os_path_split marker_file).2
  = (run_name marker_file ++ (os_path_splitext marker_file).2)%string.
Proof.
  unfold run_name. rewrite <- os_path_splitext_tail.
  symmetry. apply os_path_splitext_concat.
Qed.

Example run_name_csv :
  (os_path_split "data/study/thickness.v2.csv").2
  = (run_name "data/study/thickness.v2.csv" ++ ".csv")%string
  ∧ run_name "data/study/thickness.v2.csv" = "thickness.v2".
Proof. split; reflexivity. Qed.
End extension.
